(** * Git::Raw bundled libgit2: patch parser and config snapshot backend

    A shallow embedding of the parts of [deps/libgit2/src/patch_parse.c] and
    [deps/libgit2/src/config_snapshot.c] that the specification talks about,
    with the properties of the specification stated and proved over it.

    Conventions.  A C function returning [int] with "negative means error"
    becomes a function into a sum: [inl e] is the error that
    [git_parse_err]/[git_error_set] recorded (the C value is [-1]), [inr x]
    is the success value (the C value is [0]).  The C type [int] is the
    32-bit two's complement integer of the platforms libgit2 builds on, and
    [size_t] is taken as 64 bits wide; both are carried as [Z] with the
    range written out. *)

From Stdlib Require Import ZArith List Bool String Ascii Lia.
Import ListNotations.
Open Scope Z_scope.

(** ** config_snapshot.c *)

Module ConfigSnapshot.

(** [git_error_t] classes used below and the thread's "last error" slot
    that [git_error_set] overwrites. *)
Inductive git_error_class := GIT_ERROR_OS | GIT_ERROR_CONFIG.

Record git_error := mk_error {
  klass : git_error_class;
  message : string
}.

Record git_config_entry := mk_entry {
  entry_name : string;
  entry_value : string
}.

(** [config_snapshot_backend]: the copied entries and the live backend the
    snapshot was taken from (its entries, for the model). *)
Record config_snapshot_backend := mk_backend {
  entries : list git_config_entry;
  source : list git_config_entry
}.

(** What a backend call can touch: the backend object and the error slot. *)
Record world := mk_world {
  backend : config_snapshot_backend;
  last_error : option git_error
}.

(** Calls are state transformers returning the C [int]. *)
Definition call := world -> Z * world.

Definition git_error_set (c : git_error_class) (msg : string) (w : world) : world :=
  {| backend := backend w; last_error := Some (mk_error c msg) |}.

Definition config_error_readonly : call :=
  fun w => (-1, git_error_set GIT_ERROR_CONFIG "this backend is read-only" w).

(** Every argument is [GIT_UNUSED]. *)
Definition config_snapshot_set (name value : string) : call :=
  config_error_readonly.

Definition config_snapshot_set_multivar (name regexp value : string) : call :=
  config_error_readonly.

Definition config_snapshot_delete_multivar (name regexp : string) : call :=
  config_error_readonly.

Definition config_snapshot_delete (name : string) : call :=
  config_error_readonly.

Definition config_snapshot_lock : call :=
  config_error_readonly.

Definition config_snapshot_unlock (success : Z) : call :=
  config_error_readonly.

(** The mutation entries of the vtable filled in by
    [git_config_backend_snapshot], with their arguments. *)
Inductive mutation :=
| Set_ (name value : string)
| SetMultivar (name regexp value : string)
| Del (name : string)
| DelMultivar (name regexp : string)
| Lock.

Definition dispatch (m : mutation) : call :=
  match m with
  | Set_ n v => config_snapshot_set n v
  | SetMultivar n r v => config_snapshot_set_multivar n r v
  | Del n => config_snapshot_delete n
  | DelMultivar n r => config_snapshot_delete_multivar n r
  | Lock => config_snapshot_lock
  end.

Definition readonly_error : git_error :=
  mk_error GIT_ERROR_CONFIG "this backend is read-only".

End ConfigSnapshot.

(** ** integer.h helpers used by the parser *)

Module Integer.

Definition INT_MAX : Z := 2147483647.
Definition INT_MIN : Z := -2147483648.
Definition SIZE_MOD : Z := 2 ^ 64.

Definition fits_int (z : Z) : bool := (INT_MIN <=? z) && (z <=? INT_MAX).

(** Modelled from the spec: [git__add_int_overflow] and
    [git__sub_int_overflow] are defined in integer.h, not in the parser
    file.  The spec gives their contract: the addition or subtraction is
    performed with explicit overflow detection.  The C functions return
    true on overflow and otherwise store the result through [out]; here
    [None] is the overflow answer.  The range is that of the out
    parameter, which [parse_hunk_body] declares as
    [int old_lineno, new_lineno]. *)
Definition git__add_int_overflow (one two : Z) : option Z :=
  if fits_int (one + two) then Some (one + two) else None.

Definition git__sub_int_overflow (one two : Z) : option Z :=
  if fits_int (one - two) then Some (one - two) else None.

(** The range a signed 64-bit computation would have. *)
Definition fits_int64 (z : Z) : bool := (- 2 ^ 63 <=? z) && (z <=? 2 ^ 63 - 1).

(** Subtraction on [size_t], wrapping. *)
Definition size_sub (a b : Z) : Z := (a - b) mod SIZE_MOD.

End Integer.

(** ** patch_parse.c *)

Module PatchParse.
Import Integer.

(** Errors raised through [git_parse_err]; the number is the line number
    formatted into the message. *)
Inductive parse_error :=
| empty_path (line_num : Z)
    (* "patch contains empty path at line %d" *)
| duplicate_old_path (line_num : Z)
    (* "patch contains duplicate old path at line %d" *)
| duplicate_new_path (line_num : Z)
    (* "patch contains duplicate new path at line %d" *)
| unrepresentable_line_count (line_num : Z)
    (* "unrepresentable line count at line %d" *)
| invalid_hunk_line (line_num : Z)
    (* a body line that is none of the accepted forms *)
| hunk_count_mismatch (old_lines new_lines : Z)
    (* the declared counts were not reached *)
| last_line_no_trailing_newline
    (* "last line has no trailing newline" *)
| corrupt_binary_without_paths (line_num : Z)
    (* "corrupt binary data without paths at line %d" *)
| rejected_binary_line (line_num : Z)
    (* a radix-85 line that fails the length check *)
| binary_decode_failure
| path_buffer_error (code : Z)
    (* a negative code from the buffer helpers *)
| prefix_error
    (* [check_prefix] failed *)
| header_name_mismatch
    (* [check_header_names] failed *)
| header_lacks_paths.
    (* neither side of the delta has a path *)

Definition result (A : Type) : Type := (parse_error + A)%type.
Definition Ok {A} (a : A) : result A := inr a.
Definition Err {A} (e : parse_error) : result A := inl e.

Definition bind {A B} (m : result A) (f : A -> result B) : result B :=
  match m with
  | inl e => inl e
  | inr a => f a
  end.

Notation "x <- m ;; k" := (bind m (fun x => k))
  (at level 61, m at next level, right associativity).

(** Modelled from the spec: the parse cursor ([git_parse_ctx], parse.c) is
    an external collaborator: a position within an immutable buffer that
    exposes the current line, its length, the 1-based line number and the
    bytes remaining, and advances one line at a time.  The buffer that
    remains is kept as its lines, each with its line terminator. *)
Record git_parse_ctx := mk_ctx {
  content_len : Z;
  remain : list string;
  line_num : Z
}.

Definition line (ctx : git_parse_ctx) : string := hd EmptyString (remain ctx).

Definition line_len (ctx : git_parse_ctx) : Z :=
  Z.of_nat (String.length (line ctx)).

Fixpoint total_len (ls : list string) : Z :=
  match ls with
  | [] => 0
  | l :: ls' => Z.of_nat (String.length l) + total_len ls'
  end.

Definition remain_len (ctx : git_parse_ctx) : Z := total_len (remain ctx).

Definition git_parse_ctx_init (ls : list string) : git_parse_ctx :=
  {| content_len := total_len ls; remain := ls; line_num := 1 |}.

Definition git_parse_advance_line (ctx : git_parse_ctx) : git_parse_ctx :=
  {| content_len := content_len ctx;
     remain := tl (remain ctx);
     line_num := line_num ctx + 1 |}.

(** [git_parse_peek(&c, ctx, 0)]: the first character of the line. *)
Definition peek (ctx : git_parse_ctx) : option ascii :=
  match line ctx with
  | EmptyString => None
  | String c _ => Some c
  end.

(** [git_diff_line_t] *)
Inductive git_diff_line_t :=
| GIT_DIFF_LINE_CONTEXT
| GIT_DIFF_LINE_ADDITION
| GIT_DIFF_LINE_DELETION
| GIT_DIFF_LINE_CONTEXT_EOFNL
| GIT_DIFF_LINE_ADD_EOFNL
| GIT_DIFF_LINE_DEL_EOFNL.

(** An [int] holding an origin: [None] is the [0] that [last_origin]
    starts with, which is no member of the enumeration. *)
Definition origin_int := option git_diff_line_t.

Definition eof_for_origin (origin : origin_int) : git_diff_line_t :=
  match origin with
  | Some GIT_DIFF_LINE_ADDITION => GIT_DIFF_LINE_ADD_EOFNL
  | Some GIT_DIFF_LINE_DELETION => GIT_DIFF_LINE_DEL_EOFNL
  | _ => GIT_DIFF_LINE_CONTEXT_EOFNL
  end.

Record git_diff_line := mk_line {
  origin : git_diff_line_t;
  old_lineno : Z;
  new_lineno : Z;
  num_lines : Z;
  line_content_len : Z;
  content_offset : Z;
  content : string
}.

Record git_diff_hunk := mk_hunk {
  old_start : Z;
  old_lines : Z;
  new_start : Z;
  new_lines : Z
}.

(** [ctx->parse_ctx.line + prefix], [line_len - prefix] bytes of it. *)
Definition skip_prefix (prefix : Z) (s : string) : string :=
  match s with
  | String _ rest => if prefix =? 0 then s else rest
  | EmptyString => EmptyString
  end.

(** *** parse_hunk_body *)

(** The locals of [parse_hunk_body] that live across iterations, with the
    line array of the patch ([patch->base.lines], shared by the hunks of a
    patch) and [hunk->line_count]. *)
Record body_vars := mk_vars {
  oldlines : Z;
  newlines : Z;
  last_origin : origin_int;
  lines : list git_diff_line;
  line_count : Z
}.

Definition checked (line_no : Z) (r : option Z) : result Z :=
  match r with
  | Some z => Ok z
  | None => Err (unrepresentable_line_count line_no)
  end.

(** The four checked operations at the head of the loop body, in the order
    of the [||] chain; any overflow raises the same error. *)
Definition line_numbers (hunk : git_diff_hunk) (ctx : git_parse_ctx)
    (v : body_vars) : result (Z * Z) :=
  a <- checked (line_num ctx) (git__add_int_overflow (old_start hunk) (old_lines hunk)) ;;
  old_no <- checked (line_num ctx) (git__sub_int_overflow a (oldlines v)) ;;
  b <- checked (line_num ctx) (git__add_int_overflow (new_start hunk) (new_lines hunk)) ;;
  new_no <- checked (line_num ctx) (git__sub_int_overflow b (newlines v)) ;;
  Ok (old_no, new_no).

(** What the [switch] leaves behind for the code after it. *)
Record classified := mk_classified {
  c_origin : git_diff_line_t;
  c_prefix : Z;
  c_old_lineno : Z;
  c_new_lineno : Z;
  c_oldlines : Z;
  c_newlines : Z
}.

(** Modelled from the spec: the cases of the [switch] for the context,
    addition and deletion markers and its default case fall outside the
    excerpt of the function (but for their [new_lineno = -1] and
    [old_lineno = -1] assignments); the spec gives them: context consumes
    one from both counters, addition from the new counter only with the old
    line number -1, deletion from the old counter only with the new line
    number -1, and any other line inside a hunk is malformed.  The
    backslash case is the source's.  The counters are C [int]s decremented
    once per line; the decrement is exact for inputs of fewer than 2^31
    lines. *)
Definition classify (ctx : git_parse_ctx) (v : body_vars)
    (old_no new_no : Z) : result classified :=
  match peek ctx with
  | Some " "%char =>
      Ok (mk_classified GIT_DIFF_LINE_CONTEXT 1 old_no new_no
            (oldlines v - 1) (newlines v - 1))
  | Some "-"%char =>
      Ok (mk_classified GIT_DIFF_LINE_DELETION 1 old_no (-1)
            (oldlines v - 1) (newlines v))
  | Some "+"%char =>
      Ok (mk_classified GIT_DIFF_LINE_ADDITION 1 (-1) new_no
            (oldlines v) (newlines v - 1))
  | Some "\"%char =>
      if oldlines v =? 0 then
        Ok (mk_classified (eof_for_origin (last_origin v)) 0 (-1) (-1)
              (oldlines v) (newlines v))
      else Err (invalid_hunk_line (line_num ctx))
  | _ => Err (invalid_hunk_line (line_num ctx))
  end.

(** The line record filled in after the [switch]. *)
Definition make_line (ctx : git_parse_ctx) (c : classified) : git_diff_line :=
  {| origin := c_origin c;
     old_lineno := c_old_lineno c;
     new_lineno := c_new_lineno c;
     num_lines := 1;
     line_content_len := line_len ctx - c_prefix c;
     content_offset := content_len ctx - remain_len ctx;
     content := skip_prefix (c_prefix c) (line ctx) |}.

(** One iteration of the loop body. *)
Definition hunk_line (hunk : git_diff_hunk) (ctx : git_parse_ctx)
    (v : body_vars) : result body_vars :=
  nos <- line_numbers hunk ctx v ;;
  c <- classify ctx v (fst nos) (snd nos) ;;
  Ok {| oldlines := c_oldlines c;
        newlines := c_newlines c;
        last_origin := Some (c_origin c);
        lines := lines v ++ [make_line ctx c];
        line_count := line_count v + 1 |}.

Definition counters_done (v : body_vars) : bool :=
  (oldlines v =? 0) && (newlines v =? 0).

(** The start of [parse_hunk_body]: the counters of the header, no origin
    yet, the lines the patch already has. *)
Definition initial_vars (hunk : git_diff_hunk)
    (patch_lines : list git_diff_line) : body_vars :=
  {| oldlines := old_lines hunk;
     newlines := new_lines hunk;
     last_origin := None;
     lines := patch_lines;
     line_count := 0 |}.

(** Modelled from the spec: the header of the [for] loop is outside the
    excerpt; the spec has the body consume lines while a remaining
    counter is nonzero and input is left, and leave the cursor on the
    first line it does not consume.  The cursor is passed as its three
    fields so that the recursion is on the lines that remain;
    [git_parse_advance_line] is the step from [l :: rest] at [ln] to
    [rest] at [ln + 1]. *)
Fixpoint hunk_body_loop (hunk : git_diff_hunk) (clen : Z) (ls : list string)
    (ln : Z) (v : body_vars) : result (git_parse_ctx * body_vars) :=
  match ls with
  | [] => Ok (mk_ctx clen [] ln, v)
  | _ :: rest =>
      if counters_done v then Ok (mk_ctx clen ls ln, v)
      else
        v' <- hunk_line hunk (mk_ctx clen ls ln) v ;;
        hunk_body_loop hunk clen rest (ln + 1) v'
  end.

Section HunkBody.

(** The test on the last line of the array that guards the
    "last line has no trailing newline" error is outside the excerpt;
    it is a parameter of the model. *)
Variable lacks_trailing_newline : git_diff_line -> bool.

(** The line added for a trailing "\ No newline at end of file". *)
Definition eofnl_line (ctx : git_parse_ctx) (v : body_vars) : git_diff_line :=
  {| origin := eof_for_origin (last_origin v);
     old_lineno := -1;
     new_lineno := -1;
     num_lines := 1;
     line_content_len := line_len ctx;
     content_offset := content_len ctx - remain_len ctx;
     content := line ctx |}.

(** Modelled from the spec: the condition for entering the block after
    the loop is outside the excerpt; its comment and the spec expect only
    the leading backslash of the marker, after at least one line.  The
    error assignment and the line the block adds are the source's; once
    [error] is set nothing resets it, so the function returns it. *)
Definition trailing_eofnl (ctx : git_parse_ctx) (v : body_vars)
    : result (git_parse_ctx * body_vars) :=
  match peek ctx, rev (lines v) with
  | Some "\"%char, last_line :: _ =>
      if lacks_trailing_newline last_line
      then Err last_line_no_trailing_newline
      else Ok (git_parse_advance_line ctx,
               {| oldlines := oldlines v;
                  newlines := newlines v;
                  last_origin := last_origin v;
                  lines := lines v ++ [eofnl_line ctx v];
                  line_count := line_count v + 1 |})
  | _, _ => Ok (ctx, v)
  end.

(** Modelled from the spec: the check of [parse_hunk_body] between the
    loop and the trailing block is outside the excerpt; the spec makes
    a hunk whose counters are not both used up a parse error. *)
Definition parse_hunk_body (hunk : git_diff_hunk) (ctx : git_parse_ctx)
    (patch_lines : list git_diff_line) : result (git_parse_ctx * body_vars) :=
  r <- hunk_body_loop hunk (content_len ctx) (remain ctx) (line_num ctx)
         (initial_vars hunk patch_lines) ;;
  if counters_done (snd r)
  then trailing_eofnl (fst r) (snd r)
  else Err (hunk_count_mismatch (old_lines hunk) (new_lines hunk)).

End HunkBody.

(** Lines that count against the old side and against the new side. *)
Definition on_old_side (l : git_diff_line) : bool :=
  match origin l with
  | GIT_DIFF_LINE_CONTEXT | GIT_DIFF_LINE_DELETION => true
  | _ => false
  end.

Definition on_new_side (l : git_diff_line) : bool :=
  match origin l with
  | GIT_DIFF_LINE_CONTEXT | GIT_DIFF_LINE_ADDITION => true
  | _ => false
  end.

Definition count_lines (f : git_diff_line -> bool) (ls : list git_diff_line) : Z :=
  Z.of_nat (List.length (filter f ls)).

Definition is_eofnl (o : git_diff_line_t) : bool :=
  match o with
  | GIT_DIFF_LINE_CONTEXT_EOFNL | GIT_DIFF_LINE_ADD_EOFNL
  | GIT_DIFF_LINE_DEL_EOFNL => true
  | _ => false
  end.

(** *** Header paths *)

Inductive git_delta_t :=
| GIT_DELTA_UNMODIFIED
| GIT_DELTA_ADDED
| GIT_DELTA_DELETED
| GIT_DELTA_MODIFIED
| GIT_DELTA_RENAMED
| GIT_DELTA_COPIED
| GIT_DELTA_TYPECHANGE.

Definition is_added (s : git_delta_t) : bool :=
  match s with GIT_DELTA_ADDED => true | _ => false end.

Definition is_deleted (s : git_delta_t) : bool :=
  match s with GIT_DELTA_DELETED => true | _ => false end.

(** The path fields of [git_patch_parsed] and of its delta; a C string
    pointer is an [option], [None] for [NULL]. *)
Record git_patch_parsed := mk_patch {
  header_old_path : option string;
  header_new_path : option string;
  old_path : option string;
  new_path : option string;
  rename_old_path : option string;
  rename_new_path : option string;
  status : git_delta_t;
  old_file_path : option string;
  new_file_path : option string
}.

Definition set_old_path (patch : git_patch_parsed) (p : option string) :=
  {| header_old_path := header_old_path patch;
     header_new_path := header_new_path patch;
     old_path := p;
     new_path := new_path patch;
     rename_old_path := rename_old_path patch;
     rename_new_path := rename_new_path patch;
     status := status patch;
     old_file_path := old_file_path patch;
     new_file_path := new_file_path patch |}.

Definition set_new_path (patch : git_patch_parsed) (p : option string) :=
  {| header_old_path := header_old_path patch;
     header_new_path := header_new_path patch;
     old_path := old_path patch;
     new_path := p;
     rename_old_path := rename_old_path patch;
     rename_new_path := rename_new_path patch;
     status := status patch;
     old_file_path := old_file_path patch;
     new_file_path := new_file_path patch |}.


Definition starts_with_quote (s : string) : bool :=
  match s with
  | String c _ => Ascii.eqb c (ascii_of_nat 34)
  | EmptyString => false
  end.

Definition to_nat (z : Z) : nat := Z.to_nat z.

Section HeaderPaths.

(** [git_buf_unquote] (buffer.c): a negative code or the unquoted
    text. *)
Variable git_buf_unquote : string -> Z + string.

(** [parse_header_path_buf]: the first [path_len] bytes of what is left
    of the line, unquoted when they start with a double quote, and
    refused when empty.  (The copy into the buffer and its trimming are
    outside the excerpt.) *)
Definition parse_header_path_buf (ctx : git_parse_ctx) (path_len : Z)
    : result string :=
  let path := substring 0 (to_nat path_len) (line ctx) in
  path' <- (if (0 <? Z.of_nat (String.length path)) && starts_with_quote path
            then match git_buf_unquote path with
                 | inl code => Err (path_buffer_error code)
                 | inr p => Ok p
                 end
            else Ok path) ;;
  if Z.of_nat (String.length path') =? 0
  then Err (empty_path (line_num ctx))
  else Ok path'.

(** Handler of the "--- " line.  The duplicate test comes first and
    leaves through [out] with its error.  The store into
    [patch->old_path] on success is outside the excerpt; the test on
    that field is what makes a second "--- " line a duplicate. *)
Definition parse_header_git_oldpath (patch : git_patch_parsed)
    (ctx : git_parse_ctx) : result git_patch_parsed :=
  match old_path patch with
  | Some _ => Err (duplicate_old_path (line_num ctx))
  | None =>
      p <- parse_header_path_buf ctx (line_len ctx - 1) ;;
      Ok (set_old_path patch (Some p))
  end.

(** Modelled from the spec: the excerpt shows the jump to [out] after
    the duplicate error on the old side only; the spec rejects a
    duplicate on either side, so the handler of the "+++ " line leaves
    the same way.  The rest is the source's, as on the old side. *)
Definition parse_header_git_newpath (patch : git_patch_parsed)
    (ctx : git_parse_ctx) : result git_patch_parsed :=
  match new_path patch with
  | Some _ => Err (duplicate_new_path (line_num ctx))
  | None =>
      p <- parse_header_path_buf ctx (line_len ctx - 1) ;;
      Ok (set_new_path patch (Some p))
  end.

End HeaderPaths.

(** *** Binary files *)

(** Modelled from the spec: [git_parse_advance_expected_str] is the
    cursor's "advance past literal string": it fails unless the line
    starts with the string, and then moves past it.  Here it works on
    what is left of the current line and returns what is left after. *)
Fixpoint advance_expected_str (expected l : string) : option string :=
  match expected with
  | EmptyString => Some l
  | String e expected' =>
      match l with
      | String c l' =>
          if Ascii.eqb c e then advance_expected_str expected' l' else None
      | EmptyString => None
      end
  end.

Definition newline : string := String (ascii_of_nat 10) EmptyString.

(** Modelled from the spec: [git_parse_advance_nl] is the cursor's
    "advance past newline": what is left of the line must be its
    terminator. *)
Definition advance_nl (l : string) : bool := String.eqb l newline.

Definition opt_bind {A B} (o : option A) (f : A -> option B) : option B :=
  match o with Some a => f a | None => None end.

Definition established (own header : option string) : option string :=
  match own with
  | Some p => Some p
  | None => header
  end.

Definition dev_null : string := "/dev/null".

(** The names compared with the line: [old = "/dev/null"] when the status
    is added, [else] [new = "/dev/null"] when it is deleted. *)
Definition binary_old_name (st : git_delta_t) (old : string) : string :=
  if is_added st then dev_null else old.

Definition binary_new_name (st : git_delta_t) (new : string) : string :=
  if is_added st then new else if is_deleted st then dev_null else new.

(** Modelled from the spec: the first comparison of
    [parse_patch_binary_nodata] (against "Binary files ") and the error it
    returns when a comparison fails are outside the excerpt; the spec gives
    the form of the line and raises "corrupt binary data without paths"
    when the paths do not match.  The path selection, the test for absent
    paths with its error, the substitution of "/dev/null" and the order of
    the comparisons are the source's. *)
Definition parse_patch_binary_nodata (patch : git_patch_parsed)
    (ctx : git_parse_ctx) : result git_parse_ctx :=
  match established (old_path patch) (header_old_path patch),
        established (new_path patch) (header_new_path patch) with
  | Some old, Some new =>
      let old := binary_old_name (status patch) old in
      let new := binary_new_name (status patch) new in
      match opt_bind (opt_bind (opt_bind (opt_bind
               (advance_expected_str "Binary files " (line ctx))
               (advance_expected_str old))
               (advance_expected_str " and "))
               (advance_expected_str new))
               (advance_expected_str " differ") with
      | Some rest =>
          if advance_nl rest then Ok (git_parse_advance_line ctx)
          else Err (corrupt_binary_without_paths (line_num ctx))
      | None => Err (corrupt_binary_without_paths (line_num ctx))
      end
  | _, _ => Err (corrupt_binary_without_paths (line_num ctx))
  end.

(** The text a short-form binary line must have for the given paths. *)
Definition binary_differ_line (old new : string) : string :=
  ("Binary files " ++ old ++ " and " ++ new ++ " differ" ++ newline)%string.

(** The test in front of the radix-85 decoder in
    [parse_patch_binary_side]; [encoded_len] and the line length are
    [size_t]. *)
Definition binary_line_rejected (encoded_len line_len : Z) : bool :=
  (encoded_len =? 0) || (line_len =? 0) || (encoded_len >? size_sub line_len 1).

Section BinarySide.

(** [git_buf_decode_base85] (buffer.c) reads [encoded_len] bytes from
    the current line. *)
Variable git_buf_decode_base85 : string -> Z -> option string.

Definition decode_binary_line (ctx : git_parse_ctx)
    (encoded_len decoded_len : Z) : result string :=
  if binary_line_rejected encoded_len (line_len ctx)
  then Err (rejected_binary_line (line_num ctx))
  else match git_buf_decode_base85
               (substring 0 (to_nat encoded_len) (line ctx)) decoded_len with
       | Some bytes => Ok bytes
       | None => Err binary_decode_failure
       end.

End BinarySide.

(** *** Paths of the delta *)

(** [prefixed_old] and [prefixed_new]: the path of the "--- " or "+++ "
    line unless the side is the added or deleted one or has no such
    path, and the header's path otherwise. *)
Definition prefixed (flag : bool) (own header : option string) : option string :=
  match own with
  | Some p => if flag then header else Some p
  | None => header
  end.


Section CheckFilenames.

(** [check_header_names] and [check_prefix] are called here and defined
    outside the excerpt: the first answers whether the names agree, the
    second gives the length of the prefix or fails. *)
Variable check_header_names : option string -> option string -> bool -> bool.
Variable check_prefix : string -> option Z.


(** Modelled from the spec: the first branch of the [if]/[else if]/[else]
    chain that sets a side of the delta is outside the excerpt.  The spec
    gives it: the rename or copy path takes precedence when it is present
    and the add or delete flag of the side is not set.  Whether the branch
    takes a rename or copy path that is present, given the flag of the
    side, is left as the parameter [takes_rename]; the spec's sentence is
    [takes_rename flag = negb flag].  Of the other two branches the
    excerpt shows the tests ([else if (prefixed_old)], [else]) and the
    assignment of the last one (the path is NULL).  The assignment of the
    second branch is outside the excerpt too: it is taken to store the
    prefixed path from behind the prefix whose length [check_prefix] has
    just measured on it, which the spec does not describe. *)
Variable takes_rename : bool -> bool.



End CheckFilenames.

(** *** Vocabulary for the properties of a hunk body *)

(** The origin of the last line of a run of lines, as [last_origin] holds
    it: [None] before the first line. *)
Definition last_origin_of (emitted : list git_diff_line) : origin_int :=
  match rev emitted with
  | [] => None
  | l :: _ => Some (origin l)
  end.

(** The line numbers a line must carry when [before] are the lines of the
    hunk in front of it: on a side it counts against, the start of the hunk
    on that side plus the lines of that side in front of it, and -1 on a
    side it does not count against; both within the range of [int]. *)
Definition well_numbered (hunk : git_diff_hunk) (before : list git_diff_line)
    (l : git_diff_line) : Prop :=
  old_lineno l = (if on_old_side l
                  then old_start hunk + count_lines on_old_side before
                  else -1)
  /\ new_lineno l = (if on_new_side l
                     then new_start hunk + count_lines on_new_side before
                     else -1)
  /\ fits_int (old_lineno l) = true
  /\ fits_int (new_lineno l) = true.

(** A line with an end-of-file origin takes it from the line in front. *)
Definition eofnl_from_previous (before : list git_diff_line)
    (l : git_diff_line) : Prop :=
  is_eofnl (origin l) = true ->
  origin l = eof_for_origin (last_origin_of before)
  /\ old_lineno l = -1 /\ new_lineno l = -1.

Definition each_line (P : list git_diff_line -> git_diff_line -> Prop)
    (emitted : list git_diff_line) : Prop :=
  forall before l after, emitted = before ++ l :: after -> P before l.

(** The four exact values that the head of the loop body computes. *)
Definition line_numbers_fit (hunk : git_diff_hunk) (v : body_vars) : bool :=
  fits_int (old_start hunk + old_lines hunk)
  && fits_int (old_start hunk + old_lines hunk - oldlines v)
  && fits_int (new_start hunk + new_lines hunk)
  && fits_int (new_start hunk + new_lines hunk - newlines v).

(** What holds of the locals between iterations when [emitted] are the
    lines added so far by this call. *)
Definition body_invariant (hunk : git_diff_hunk)
    (patch_lines : list git_diff_line) (v : body_vars)
    (emitted : list git_diff_line) : Prop :=
  lines v = patch_lines ++ emitted
  /\ oldlines v = old_lines hunk - count_lines on_old_side emitted
  /\ newlines v = new_lines hunk - count_lines on_new_side emitted
  /\ last_origin v = last_origin_of emitted
  /\ each_line (well_numbered hunk) emitted
  /\ each_line eofnl_from_previous emitted.

(** An instance of the parameter of [parse_hunk_body]: the line has no
    content bytes. *)
Definition no_content (l : git_diff_line) : bool := line_content_len l <? 1.

(** *** Sample inputs *)

(** The body of [@@ -1 +1 @@] replacing a line, the new one without a
    newline at the end of the file. *)
Definition example_hunk : git_diff_hunk := mk_hunk 1 1 1 1.

Definition example_body : git_parse_ctx :=
  git_parse_ctx_init
    ["-a
"%string; "+b
"%string; "\ No newline at end of file
"%string].

(** A header at the end of the range of [int]:
    [@@ -2147483647 +1 @@], and one context line. *)
Definition overflowing_hunk : git_diff_hunk := mk_hunk 2147483647 1 1 1.

Definition one_context_line : git_parse_ctx :=
  {| content_len := 30; remain := [" x
"%string]; line_num := 5 |}.



Definition marker_only : git_parse_ctx :=
  {| content_len := 50; remain := ["\ No newline at end of file
"%string]; line_num := 7 |}.

End PatchParse.

(** ** config_snapshot.c: the entry table and its references *)

Module SnapshotEntries.
Import ConfigSnapshot.

(** Modelled from the spec: [git_config_entries] (config_entries.c) is the
    shared, reference-counted entry table of a snapshot.
    [git_config_entries_incref] adds a reference,
    [git_config_entries_free] drops one and releases the table with the
    last.  The cell a table pointer leads to is [None] once released. *)
Record git_config_entries := mk_entries {
  refcount : Z;
  items : list git_config_entry
}.

Definition table_ref := option git_config_entries.

Definition git_config_entries_incref (t : table_ref) : table_ref :=
  match t with
  | Some e => Some {| refcount := refcount e + 1; items := items e |}
  | None => None
  end.

Definition git_config_entries_free (t : table_ref) : table_ref :=
  match t with
  | Some e =>
      if refcount e - 1 <=? 0 then None
      else Some {| refcount := refcount e - 1; items := items e |}
  | None => None
  end.

(** [config_snapshot_entry_free]: releasing the entry releases its reference
    on the table the payload points to. *)
Definition config_snapshot_entry_free (payload : table_ref) : table_ref :=
  git_config_entries_free payload.

(** The entry handed out by [config_snapshot_get]: the entry found, with
    its [free] member; its payload is the table of the backend. *)
Record entry_handle := mk_handle {
  entry : git_config_entry;
  free : table_ref -> table_ref
}.

Record get_result := mk_get {
  get_code : Z;
  out : option entry_handle;
  table_after : table_ref;
  error_after : option git_error
}.

Section Get.

(** [git_config_entries_get] (config_entries.c) is a parameter: it answers
    with a negative code or with the entry for the key. *)
Variable git_config_entries_get : list git_config_entry -> string -> Z + git_config_entry.

(** [config_snapshot_get] on a backend whose table is [t];
    [lock_failed] tells whether [git_mutex_lock] answered below zero. *)
Definition config_snapshot_get (lock_failed : bool) (key : string)
    (t : git_config_entries) (err : option git_error) : get_result :=
  if lock_failed then
    {| get_code := -1;
       out := None;
       table_after := Some t;
       error_after := Some (mk_error GIT_ERROR_OS "failed to lock config backend") |}
  else
    let entries := git_config_entries_incref (Some t) in
    match git_config_entries_get (items t) key with
    | inl error =>
        {| get_code := error;
           out := None;
           table_after := git_config_entries_free entries;
           error_after := err |}
    | inr e =>
        {| get_code := 0;
           out := Some {| entry := e; free := config_snapshot_entry_free |};
           table_after := entries;
           error_after := err |}
    end.

End Get.

(** [config_snapshot_free]: nothing for a null backend, and else the
    backend's reference on its table is dropped. *)
Definition config_snapshot_free (backend_is_null : bool) (t : table_ref) : table_ref :=
  if backend_is_null then t else git_config_entries_free t.

(** What an iterator of the source backend does under [git_config_next]:
    it answers 0 with each entry of [yields] in turn, and then [final],
    which is not 0. *)
Record git_config_iterator := mk_iterator {
  yields : list git_config_entry;
  final : Z
}.

(** What [config_snapshot_open] has done when it returns: its code, the
    table it stored in [b->entries] ([None]: the member is as it was), and
    whether it released the table it built. *)
Record open_result := mk_open {
  open_code : Z;
  installed : option (list git_config_entry);
  released : bool
}.

Section Open.

(** [GIT_ITEROVER] (errors.h) and [git_config_entries_dup_entry]
    (config_entries.c) are parameters: the second answers with a code and
    the table after it. *)
Variable GIT_ITEROVER : Z.
Variable git_config_entries_dup_entry :
  list git_config_entry -> git_config_entry -> Z * list git_config_entry.

(** The [while] loop: [inl] is the jump to [out] from a failed
    duplication, [inr] the code that ended the iteration with the table
    built. *)
Fixpoint copy_entries (entries : list git_config_entry)
    (pending : list git_config_entry) (last : Z)
    : Z + (Z * list git_config_entry) :=
  match pending with
  | [] => inr (last, entries)
  | e :: rest =>
      let r := git_config_entries_dup_entry entries e in
      if fst r <? 0 then inl (fst r)
      else copy_entries (snd r) rest last
  end.

(** [config_snapshot_open].  [new_code] is the answer of
    [git_config_entries_new], which leaves an empty table when it is not
    negative; [source_iterator] is the answer of the source backend's
    [iterator]: a negative code or the iterator. *)
Definition config_snapshot_open (new_code : Z)
    (source_iterator : Z + git_config_iterator) : open_result :=
  if new_code <? 0 then
    {| open_code := new_code; installed := None; released := false |}
  else
    match source_iterator with
    | inl error => {| open_code := error; installed := None; released := true |}
    | inr it =>
        match copy_entries [] (yields it) (final it) with
        | inl error => {| open_code := error; installed := None; released := true |}
        | inr (error, entries) =>
            if error <? 0 then
              if negb (error =? GIT_ITEROVER) then
                {| open_code := error; installed := None; released := true |}
              else
                {| open_code := 0; installed := Some entries; released := false |}
            else
              {| open_code := error;
                 installed := Some entries;
                 released := negb (error =? 0) |}
        end
    end.

End Open.

(** The table of the backend after one more [config_snapshot_get] that is
    not kept from locking. *)
Definition table_after_get
    (git_config_entries_get : list git_config_entry -> string -> Z + git_config_entry)
    (key : string) (t : table_ref) : table_ref :=
  match t with
  | Some e => table_after (config_snapshot_get git_config_entries_get false key e None)
  | None => None
  end.

(** A duplication that always works: the table grows by the entry. *)
Definition dup_append (entries : list git_config_entry) (e : git_config_entry)
    : Z * list git_config_entry := (0, entries ++ [e]).

(** A lookup by name, the last entry of the name winning. *)
Fixpoint lookup_last (entries : list git_config_entry) (key : string)
    : Z + git_config_entry :=
  match entries with
  | [] => inl (-3)
  | e :: rest =>
      match lookup_last rest key with
      | inr found => inr found
      | inl code => if String.eqb (entry_name e) key then inr e else inl code
      end
  end.

End SnapshotEntries.

(** ** patch_parse.c: input lines and the lines added for them *)

Module HunkInput.
Import PatchParse.

(** The width of the marker in front of the content of a line: none for
    the end-of-file pseudo-lines, one character for the others. *)
Definition prefix_of (l : git_diff_line) : Z :=
  if is_eofnl (origin l) then 0 else 1.

(** The line [l] was made from the input line [s]. *)
Definition made_from (s : string) (l : git_diff_line) : Prop :=
  content l = skip_prefix (prefix_of l) s
  /\ line_content_len l = Z.of_nat (String.length s) - prefix_of l.

End HunkInput.

(** ** patch_parse.c: the loop of a hunk body, line by line *)

Module HunkRun.
Import PatchParse.

(** The loop of [parse_hunk_body] stopped after at most [n] iterations: the
    cursor and the locals in front of the next line.  It follows
    [hunk_body_loop] and answers where that loop stands when it stops by
    itself earlier. *)
Fixpoint hunk_body_steps (n : nat) (hunk : git_diff_hunk) (clen : Z)
    (ls : list string) (ln : Z) (v : body_vars)
    : result (git_parse_ctx * body_vars) :=
  match n, ls with
  | S n', _ :: rest =>
      if counters_done v then Ok (mk_ctx clen ls ln, v)
      else
        v' <- hunk_line hunk (mk_ctx clen ls ln) v ;;
        hunk_body_steps n' hunk clen rest (ln + 1) v'
  | _, _ => Ok (mk_ctx clen ls ln, v)
  end.



(** *** Sample inputs *)

(** [@@ -2147483646 +1,5 @@] followed by three deletions: the old line
    number leaves the range of [int] at the third. *)
Definition late_overflow_hunk : git_diff_hunk := mk_hunk 2147483646 1 1 5.

Definition three_deletions : git_parse_ctx :=
  git_parse_ctx_init ["-a
"%string; "-b
"%string; "-c
"%string].








End HunkRun.

(** ** patch_parse.c: the header lines of a file section *)

Module HeaderSection.
Import PatchParse.







Section Header.

Variable git_buf_unquote : string -> Z + string.




End Header.

(** *** Sample tables and sections *)






End HeaderSection.

(** * Properties *)

(** ** The snapshot backend is read-only *)

Section SnapshotReadOnly.
Import ConfigSnapshot.

Lemma config_error_readonly_spec (w : world) :
  config_error_readonly w
  = (-1, {| backend := backend w; last_error := Some readonly_error |}).
Proof. reflexivity. Qed.

(** C8: whichever of set, set_multivar, delete, delete_multivar and lock
    is called on a snapshot backend, and with whatever arguments, the call
    returns -1, leaves the backend object as it was and records the one
    error "this backend is read-only" of class config. *)
Theorem snapshot_mutation_rejected (m : mutation) (w : world) :
  fst (dispatch m w) = -1
  /\ backend (snd (dispatch m w)) = backend w
  /\ last_error (snd (dispatch m w)) = Some readonly_error.
Proof.
  destruct m; cbn [dispatch];
    unfold config_snapshot_set, config_snapshot_set_multivar,
      config_snapshot_delete, config_snapshot_delete_multivar,
      config_snapshot_lock;
    rewrite config_error_readonly_spec; cbn; auto.
Qed.

(** C10: unlock, for every value of its success argument, returns -1 with
    the same read-only error and leaves the snapshot backend unchanged. *)
Theorem snapshot_unlock_rejected (success : Z) (w : world) :
  fst (config_snapshot_unlock success w) = -1
  /\ backend (snd (config_snapshot_unlock success w)) = backend w
  /\ last_error (snd (config_snapshot_unlock success w)) = Some readonly_error.
Proof.
  unfold config_snapshot_unlock.
  rewrite config_error_readonly_spec; cbn; auto.
Qed.

End SnapshotReadOnly.

(** ** The length test on a radix-85 line *)

Section BinaryLine.
Import Integer PatchParse.

Lemma get_in_range (s : string) (i : nat) :
  (i < String.length s)%nat -> String.get i s <> None.
Proof.
  revert i; induction s as [|c s IH]; intros i Hi; cbn in *.
  - lia.
  - destruct i as [|i]; [discriminate | apply IH; lia].
Qed.

Lemma size_sub_one (n : Z) :
  0 < n < SIZE_MOD -> size_sub n 1 = n - 1.
Proof.
  intros H. unfold size_sub. apply Z.mod_small. lia.
Qed.

Lemma binary_line_accepted_iff (encoded_len line_len : Z) :
  0 <= encoded_len < SIZE_MOD -> 0 <= line_len < SIZE_MOD ->
  binary_line_rejected encoded_len line_len = false
  <-> 0 < encoded_len <= line_len - 1.
Proof.
  intros He Hl. unfold binary_line_rejected.
  destruct (Z.eqb_spec encoded_len 0) as [E0|E0]; cbn [orb].
  - split; [discriminate | lia].
  - destruct (Z.eqb_spec line_len 0) as [L0|L0]; cbn [orb].
    + split; [discriminate | lia].
    + rewrite size_sub_one by lia.
      rewrite Z.gtb_ltb, Z.ltb_ge. lia.
Qed.

(** C9: for a radix-85 line, with the encoded count and the line length in
    the range of size_t: a count that is zero or exceeds the line length
    minus one is rejected with a parse error whatever the decoder would
    do, and otherwise the decoder's answer is the result and every byte
    it is handed (positions below the encoded count) lies inside the
    current line. *)
Theorem binary_line_length_checked
    (decode : string -> Z -> option string) (ctx : git_parse_ctx)
    (encoded_len decoded_len : Z) :
  0 <= encoded_len < SIZE_MOD ->
  line_len ctx < SIZE_MOD ->
  (~ (0 < encoded_len <= line_len ctx - 1) ->
     decode_binary_line decode ctx encoded_len decoded_len
     = Err (rejected_binary_line (line_num ctx)))
  /\ (0 < encoded_len <= line_len ctx - 1 ->
      decode_binary_line decode ctx encoded_len decoded_len
      = match decode (substring 0 (to_nat encoded_len) (line ctx)) decoded_len with
        | Some bytes => Ok bytes
        | None => Err binary_decode_failure
        end
      /\ forall i : nat, (i < to_nat encoded_len)%nat ->
           String.get i (line ctx) <> None).
Proof.
  intros He Hl.
  assert (Hl0 : 0 <= line_len ctx < SIZE_MOD)
    by (unfold line_len in *; lia).
  pose proof (binary_line_accepted_iff encoded_len (line_len ctx) He Hl0) as Hiff.
  unfold decode_binary_line. split.
  - intros Hbad.
    destruct (binary_line_rejected encoded_len (line_len ctx)); [reflexivity|].
    exfalso. apply Hbad, Hiff. reflexivity.
  - intros Hok. apply Hiff in Hok as Hacc. rewrite Hacc. split; [reflexivity|].
    intros i Hi. apply get_in_range.
    unfold line_len, to_nat in *. lia.
Qed.

Lemma binary_line_length_checked_witness :
  (0 <= 5 < SIZE_MOD /\ line_len (mk_ctx 7 ["ABCDEF"%string] 3) < SIZE_MOD)
  /\ (~ (0 < 5 <= line_len (mk_ctx 7 ["ABCDEF"%string] 3) - 1) ->
       decode_binary_line (fun s _ => Some s) (mk_ctx 7 ["ABCDEF"%string] 3) 5 4
       = Err (rejected_binary_line 3))
  /\ (0 < 5 <= line_len (mk_ctx 7 ["ABCDEF"%string] 3) - 1 ->
       decode_binary_line (fun s _ => Some s) (mk_ctx 7 ["ABCDEF"%string] 3) 5 4
       = Ok "ABCDE"%string
       /\ forall i : nat, (i < to_nat 5)%nat ->
            String.get i (line (mk_ctx 7 ["ABCDEF"%string] 3)) <> None).
Proof.
  split; [split; vm_compute; [split; [discriminate | reflexivity] | reflexivity]|].
  apply (binary_line_length_checked (fun s _ => Some s)
           (mk_ctx 7 ["ABCDEF"%string] 3) 5 4).
  - unfold SIZE_MOD. lia.
  - vm_compute. reflexivity.
Defined.

End BinaryLine.

(** ** Duplicate header paths *)

Section DuplicatePaths.
Import PatchParse.

Variable unquote : string -> Z + string.

Lemma iter_advance_fields (n : nat) (ctx : git_parse_ctx) :
  line_num (Nat.iter n git_parse_advance_line ctx) = line_num ctx + Z.of_nat n.
Proof.
  induction n as [|n IH].
  - cbn. lia.
  - rewrite Nat.iter_succ. cbn [git_parse_advance_line line_num].
    rewrite IH. lia.
Qed.

Lemma oldpath_recorded (patch patch' : git_patch_parsed) (ctx : git_parse_ctx) :
  parse_header_git_oldpath unquote patch ctx = Ok patch' ->
  old_path patch' <> None /\ new_path patch' = new_path patch.
Proof.
  unfold parse_header_git_oldpath.
  destruct (old_path patch); [discriminate|].
  destruct (parse_header_path_buf unquote ctx (line_len ctx - 1)) as [e|p];
    cbn; [discriminate|].
  intros H; injection H as <-. cbn. split; [discriminate | reflexivity].
Qed.

Lemma newpath_recorded (patch patch' : git_patch_parsed) (ctx : git_parse_ctx) :
  parse_header_git_newpath unquote patch ctx = Ok patch' ->
  new_path patch' <> None /\ old_path patch' = old_path patch.
Proof.
  unfold parse_header_git_newpath.
  destruct (new_path patch); [discriminate|].
  destruct (parse_header_path_buf unquote ctx (line_len ctx - 1)) as [e|p];
    cbn; [discriminate|].
  intros H; injection H as <-. cbn. split; [discriminate | reflexivity].
Qed.

Lemma oldpath_duplicate (patch : git_patch_parsed) (ctx : git_parse_ctx) :
  old_path patch <> None ->
  parse_header_git_oldpath unquote patch ctx = Err (duplicate_old_path (line_num ctx)).
Proof.
  unfold parse_header_git_oldpath. destruct (old_path patch); [reflexivity|].
  intros H; now elim H.
Qed.

Lemma newpath_duplicate (patch : git_patch_parsed) (ctx : git_parse_ctx) :
  new_path patch <> None ->
  parse_header_git_newpath unquote patch ctx = Err (duplicate_new_path (line_num ctx)).
Proof.
  unfold parse_header_git_newpath. destruct (new_path patch); [reflexivity|].
  intros H; now elim H.
Qed.

(** The handlers alone: once a handler has recorded the path of its side,
    every further call of it fails with the duplicate error at the line of
    its cursor, also when the handler of the other side ran in between;
    and the cursor counts lines from 1. *)
Lemma duplicate_path_handlers
    (patch patch1 : git_patch_parsed) (ctx1 ctx2 : git_parse_ctx) :
  (parse_header_git_oldpath unquote patch ctx1 = Ok patch1 ->
     parse_header_git_oldpath unquote patch1 ctx2
     = Err (duplicate_old_path (line_num ctx2))
     /\ forall patch2 ctx3,
          parse_header_git_newpath unquote patch1 ctx2 = Ok patch2 ->
          parse_header_git_oldpath unquote patch2 ctx3
          = Err (duplicate_old_path (line_num ctx3)))
  /\ (parse_header_git_newpath unquote patch ctx1 = Ok patch1 ->
     parse_header_git_newpath unquote patch1 ctx2
     = Err (duplicate_new_path (line_num ctx2))
     /\ forall patch2 ctx3,
          parse_header_git_oldpath unquote patch1 ctx2 = Ok patch2 ->
          parse_header_git_newpath unquote patch2 ctx3
          = Err (duplicate_new_path (line_num ctx3)))
  /\ (forall (ls : list string) (n : nat),
        line_num (Nat.iter n git_parse_advance_line (git_parse_ctx_init ls))
        = Z.of_nat n + 1).
Proof.
  split; [|split].
  - intros H1. apply oldpath_recorded in H1 as [Hset _]. split.
    + now apply oldpath_duplicate.
    + intros patch2 ctx3 H2. apply newpath_recorded in H2 as [_ Hsame].
      apply oldpath_duplicate. now rewrite Hsame.
  - intros H1. apply newpath_recorded in H1 as [Hset _]. split.
    + now apply newpath_duplicate.
    + intros patch2 ctx3 H2. apply oldpath_recorded in H2 as [_ Hsame].
      apply newpath_duplicate. now rewrite Hsame.
  - intros ls n. rewrite iter_advance_fields. unfold git_parse_ctx_init. cbn [line_num]. lia.
Qed.

Import HeaderSection.



End DuplicatePaths.



(** ** The short form of a binary change *)

Section BinaryNoData.
Import PatchParse.

Lemma advance_expected_str_app (s r : string) :
  advance_expected_str s (s ++ r) = Some r.
Proof.
  induction s as [|c s IH]; cbn; [reflexivity|].
  now rewrite Ascii.eqb_refl.
Qed.

Lemma advance_expected_str_inv (s l r : string) :
  advance_expected_str s l = Some r -> l = (s ++ r)%string.
Proof.
  revert l; induction s as [|c s IH]; intros l; cbn.
  - now intros [= ->].
  - destruct l as [|d l]; [discriminate|].
    destruct (Ascii.eqb_spec d c) as [->|]; [|discriminate].
    intros H. now rewrite (IH _ H).
Qed.

Lemma opt_bind_some {A B} (o : option A) (f : A -> option B) (b : B) :
  opt_bind o f = Some b -> exists a, o = Some a /\ f a = Some b.
Proof. destruct o as [a|]; cbn; [eauto | discriminate]. Qed.

(** The comparisons succeed exactly on the line built from the two names. *)
Lemma differ_chain_spec (old new l : string) :
  (exists rest,
     opt_bind (opt_bind (opt_bind (opt_bind
       (advance_expected_str "Binary files " l)
       (advance_expected_str old))
       (advance_expected_str " and "))
       (advance_expected_str new))
       (advance_expected_str " differ") = Some rest
     /\ advance_nl rest = true)
  <-> l = binary_differ_line old new.
Proof.
  split.
  - intros (rest & Hc & Hnl).
    apply opt_bind_some in Hc as (r4 & Hc & H5).
    apply opt_bind_some in Hc as (r3 & Hc & H4).
    apply opt_bind_some in Hc as (r2 & Hc & H3).
    apply opt_bind_some in Hc as (r1 & H1 & H2).
    apply advance_expected_str_inv in H1, H2, H3, H4, H5.
    apply String.eqb_eq in Hnl. subst. reflexivity.
  - intros ->. exists newline. unfold binary_differ_line.
    rewrite advance_expected_str_app; cbn [opt_bind].
    rewrite advance_expected_str_app; cbn [opt_bind].
    rewrite advance_expected_str_app; cbn [opt_bind].
    rewrite advance_expected_str_app; cbn [opt_bind].
    rewrite advance_expected_str_app. split; reflexivity.
Qed.

Lemma expected_differ_line (st : git_delta_t) (old new : string) :
  match st with
  | GIT_DELTA_ADDED =>
      ("Binary files " ++ "/dev/null" ++ " and " ++ new ++ " differ"
         ++ String "010"%char EmptyString)%string
  | GIT_DELTA_DELETED =>
      ("Binary files " ++ old ++ " and " ++ "/dev/null" ++ " differ"
         ++ String "010"%char EmptyString)%string
  | _ =>
      ("Binary files " ++ old ++ " and " ++ new ++ " differ"
         ++ String "010"%char EmptyString)%string
  end
  = binary_differ_line (binary_old_name st old) (binary_new_name st new).
Proof. destruct st; reflexivity. Qed.

(** C5: the short-form line is accepted exactly when both sides have a path
    (the "--- "/"+++ " one, or else the header's) and the line is
    "Binary files <old> and <new> differ" with its newline for those
    paths, where "/dev/null" stands for the old path when the status is
    added and for the new path when it is deleted; a line that differs in
    any way, and a patch that lacks a path for a side (whatever its
    status), fail with "corrupt binary data without paths" at the cursor's
    line. *)
Theorem binary_nodata_paths_checked (patch : git_patch_parsed) (ctx : git_parse_ctx) :
  (forall old new : string,
     established (old_path patch) (header_old_path patch) = Some old ->
     established (new_path patch) (header_new_path patch) = Some new ->
     forall expected : string,
       expected
       = match status patch with
         | GIT_DELTA_ADDED =>
             ("Binary files " ++ "/dev/null" ++ " and " ++ new ++ " differ"
                ++ String "010"%char EmptyString)%string
         | GIT_DELTA_DELETED =>
             ("Binary files " ++ old ++ " and " ++ "/dev/null" ++ " differ"
                ++ String "010"%char EmptyString)%string
         | _ =>
             ("Binary files " ++ old ++ " and " ++ new ++ " differ"
                ++ String "010"%char EmptyString)%string
         end ->
       (line ctx = expected ->
        parse_patch_binary_nodata patch ctx = Ok (git_parse_advance_line ctx))
       /\ (line ctx <> expected ->
           parse_patch_binary_nodata patch ctx
           = Err (corrupt_binary_without_paths (line_num ctx))))
  /\ (established (old_path patch) (header_old_path patch) = None
      \/ established (new_path patch) (header_new_path patch) = None ->
      parse_patch_binary_nodata patch ctx
      = Err (corrupt_binary_without_paths (line_num ctx))).
Proof.
  unfold parse_patch_binary_nodata. split.
  - intros old new -> -> expected ->. rewrite expected_differ_line.
    pose proof (differ_chain_spec (binary_old_name (status patch) old)
                  (binary_new_name (status patch) new) (line ctx)) as Hspec.
    destruct (opt_bind _ _) as [rest|].
    + destruct (advance_nl rest) eqn:Hnl.
      * split; [reflexivity|]. intros Hne. exfalso. apply Hne, Hspec. eauto.
      * split; [|reflexivity]. intros Heq. apply Hspec in Heq as (r & [= <-] & Hr).
        congruence.
    + split; [|reflexivity]. intros Heq. apply Hspec in Heq as (r & Hr & _).
      discriminate.
  - intros [-> | ->]; [reflexivity|].
    now destruct (established (old_path patch) (header_old_path patch)).
Qed.

End BinaryNoData.

(** An added file with the header paths [a/x.bin] and [b/x.bin]: the line
    must name "/dev/null" as the old file, and the line that names
    [a/x.bin] is refused; a deleted file must name "/dev/null" as the new
    one. *)
Lemma binary_nodata_paths_checked_witness :
  (PatchParse.parse_patch_binary_nodata
     (PatchParse.mk_patch (Some "a/x.bin"%string) (Some "b/x.bin"%string)
        None None None None PatchParse.GIT_DELTA_ADDED None None)
     (PatchParse.mk_ctx 60 ["Binary files /dev/null and b/x.bin differ
"%string] 3)
   = PatchParse.Ok (PatchParse.mk_ctx 60 [] 4)
   /\ PatchParse.parse_patch_binary_nodata
        (PatchParse.mk_patch (Some "a/x.bin"%string) (Some "b/x.bin"%string)
           None None None None PatchParse.GIT_DELTA_ADDED None None)
        (PatchParse.mk_ctx 60 ["Binary files a/x.bin and b/x.bin differ
"%string] 3)
      = PatchParse.Err (PatchParse.corrupt_binary_without_paths 3))
  /\ PatchParse.parse_patch_binary_nodata
       (PatchParse.mk_patch (Some "a/x.bin"%string) (Some "b/x.bin"%string)
          None None None None PatchParse.GIT_DELTA_DELETED None None)
       (PatchParse.mk_ctx 60 ["Binary files a/x.bin and /dev/null differ
"%string] 3)
     = PatchParse.Ok (PatchParse.mk_ctx 60 [] 4).
Proof.
  split; [split|].
  - destruct (binary_nodata_paths_checked
      (PatchParse.mk_patch (Some "a/x.bin"%string) (Some "b/x.bin"%string)
         None None None None PatchParse.GIT_DELTA_ADDED None None)
      (PatchParse.mk_ctx 60 ["Binary files /dev/null and b/x.bin differ
"%string] 3)) as [Hpaths _].
    destruct (Hpaths "a/x.bin"%string "b/x.bin"%string eq_refl eq_refl _ eq_refl)
      as [Hgood _].
    apply Hgood. vm_compute. reflexivity.
  - destruct (binary_nodata_paths_checked
      (PatchParse.mk_patch (Some "a/x.bin"%string) (Some "b/x.bin"%string)
         None None None None PatchParse.GIT_DELTA_ADDED None None)
      (PatchParse.mk_ctx 60 ["Binary files a/x.bin and b/x.bin differ
"%string] 3)) as [Hpaths _].
    destruct (Hpaths "a/x.bin"%string "b/x.bin"%string eq_refl eq_refl _ eq_refl)
      as [_ Hbad].
    apply Hbad. vm_compute. discriminate.
  - destruct (binary_nodata_paths_checked
      (PatchParse.mk_patch (Some "a/x.bin"%string) (Some "b/x.bin"%string)
         None None None None PatchParse.GIT_DELTA_DELETED None None)
      (PatchParse.mk_ctx 60 ["Binary files a/x.bin and /dev/null differ
"%string] 3)) as [Hpaths _].
    destruct (Hpaths "a/x.bin"%string "b/x.bin"%string eq_refl eq_refl _ eq_refl)
      as [Hgood _].
    apply Hgood. vm_compute. reflexivity.
Defined.

(** ** The paths of the delta *)

Section DeltaPaths.
Import PatchParse.

Variable check_header_names : option string -> option string -> bool -> bool.
Variable check_prefix : string -> option Z.
Variable takes_rename : bool -> bool.

Lemma prefixed_cases (own header : option string) :
  prefixed true own header = header
  /\ prefixed false own header
     = match own with Some p => Some p | None => header end.
Proof. destruct own; split; reflexivity. Qed.








End DeltaPaths.



(** ** The body of a hunk *)

Section HunkBodyFacts.
Import Integer PatchParse.

Lemma count_lines_snoc (f : git_diff_line -> bool) (ls : list git_diff_line)
    (l : git_diff_line) :
  count_lines f (ls ++ [l]) = count_lines f ls + (if f l then 1 else 0).
Proof.
  unfold count_lines. rewrite filter_app, length_app. cbn [filter].
  destruct (f l); cbn [List.length]; lia.
Qed.

Lemma last_origin_of_snoc (ls : list git_diff_line) (l : git_diff_line) :
  last_origin_of (ls ++ [l]) = Some (origin l).
Proof. unfold last_origin_of. now rewrite rev_unit. Qed.

Lemma snoc_split {A} (ls before after : list A) (l x : A) :
  ls ++ [l] = before ++ x :: after ->
  (after = [] /\ before = ls /\ x = l)
  \/ (exists after', after = after' ++ [l] /\ ls = before ++ x :: after').
Proof.
  destruct after as [|y after] using rev_ind.
  - intros H. apply app_inj_tail in H as [-> ->]. auto.
  - clear IHafter. intros H. right. exists after.
    rewrite app_comm_cons, app_assoc in H.
    apply app_inj_tail in H as [-> ->]. auto.
Qed.

Lemma each_line_nil (P : list git_diff_line -> git_diff_line -> Prop) :
  each_line P [].
Proof. intros before l after H. now destruct before. Qed.

Lemma each_line_snoc (P : list git_diff_line -> git_diff_line -> Prop)
    (ls : list git_diff_line) (l : git_diff_line) :
  each_line P ls -> P ls l -> each_line P (ls ++ [l]).
Proof.
  intros Hall Hl before x after Heq.
  apply snoc_split in Heq as [(_ & -> & ->) | (after' & _ & ->)].
  - exact Hl.
  - eapply Hall. reflexivity.
Qed.

(** The head of the loop body: the exact values, or the overflow error. *)
Lemma line_numbers_spec (hunk : git_diff_hunk) (ctx : git_parse_ctx) (v : body_vars) :
  line_numbers hunk ctx v
  = if line_numbers_fit hunk v
    then Ok (old_start hunk + old_lines hunk - oldlines v,
             new_start hunk + new_lines hunk - newlines v)
    else Err (unrepresentable_line_count (line_num ctx)).
Proof.
  unfold line_numbers, line_numbers_fit, git__add_int_overflow,
    git__sub_int_overflow.
  destruct (fits_int (old_start hunk + old_lines hunk)); cbn; [|reflexivity].
  destruct (fits_int (old_start hunk + old_lines hunk - oldlines v)); cbn;
    [|reflexivity].
  destruct (fits_int (new_start hunk + new_lines hunk)); cbn; [|reflexivity].
  destruct (fits_int (new_start hunk + new_lines hunk - newlines v)); cbn;
    reflexivity.
Qed.

Lemma line_numbers_fit_inv (hunk : git_diff_hunk) (v : body_vars) :
  line_numbers_fit hunk v = true ->
  fits_int (old_start hunk + old_lines hunk - oldlines v) = true
  /\ fits_int (new_start hunk + new_lines hunk - newlines v) = true.
Proof.
  unfold line_numbers_fit. intros H.
  apply andb_prop in H as [H H4]. apply andb_prop in H as [H H3].
  apply andb_prop in H as [H1 H2]. auto.
Qed.

(** What the [switch] can answer. *)
Lemma classify_ok (ctx : git_parse_ctx) (v : body_vars) (o n : Z) (c : classified) :
  classify ctx v o n = Ok c ->
  c = mk_classified GIT_DIFF_LINE_CONTEXT 1 o n (oldlines v - 1) (newlines v - 1)
  \/ c = mk_classified GIT_DIFF_LINE_DELETION 1 o (-1) (oldlines v - 1) (newlines v)
  \/ c = mk_classified GIT_DIFF_LINE_ADDITION 1 (-1) n (oldlines v) (newlines v - 1)
  \/ (oldlines v = 0
      /\ c = mk_classified (eof_for_origin (last_origin v)) 0 (-1) (-1)
                (oldlines v) (newlines v)).
Proof.
  unfold classify.
  destruct (peek ctx) as [[[] [] [] [] [] [] [] []]|]; try discriminate;
    try (intros [= <-]; tauto).
  destruct (Z.eqb_spec (oldlines v) 0); [|discriminate].
  intros [= <-]. tauto.
Qed.

Lemma hunk_line_ok (hunk : git_diff_hunk) (ctx : git_parse_ctx) (v v' : body_vars) :
  hunk_line hunk ctx v = Ok v' ->
  line_numbers_fit hunk v = true
  /\ exists c,
       classify ctx v (old_start hunk + old_lines hunk - oldlines v)
         (new_start hunk + new_lines hunk - newlines v) = Ok c
       /\ v' = {| oldlines := c_oldlines c;
                  newlines := c_newlines c;
                  last_origin := Some (c_origin c);
                  lines := lines v ++ [make_line ctx c];
                  line_count := line_count v + 1 |}.
Proof.
  unfold hunk_line. rewrite line_numbers_spec.
  destruct (line_numbers_fit hunk v); cbn [bind Ok Err]; [|discriminate].
  cbn [fst snd].
  destruct (classify ctx v _ _) as [e|c]; cbn [bind]; [discriminate|].
  intros [= <-]. split; [reflexivity|]. exists c. auto.
Qed.

Lemma eof_for_origin_sides (o : origin_int) :
  is_eofnl (eof_for_origin o) = true
  /\ (forall l, origin l = eof_for_origin o ->
       on_old_side l = false /\ on_new_side l = false).
Proof.
  split.
  - now destruct o as [[]|].
  - intros l H. unfold on_old_side, on_new_side. rewrite H.
    now destruct o as [[]|].
Qed.

(** One iteration keeps the invariant and adds one line. *)
Lemma hunk_line_invariant (hunk : git_diff_hunk) (patch_lines emitted : list git_diff_line)
    (ctx : git_parse_ctx) (v v' : body_vars) :
  body_invariant hunk patch_lines v emitted ->
  hunk_line hunk ctx v = Ok v' ->
  exists l, lines v' = lines v ++ [l]
            /\ line_count v' = line_count v + 1
            /\ body_invariant hunk patch_lines v' (emitted ++ [l]).
Proof.
  intros (Hlines & Hold & Hnew & Hlast & Hnum & Heof) Hstep.
  apply hunk_line_ok in Hstep as (Hfit & c & Hc & ->).
  apply line_numbers_fit_inv in Hfit as [Hfo Hfn].
  exists (make_line ctx c). cbn [lines line_count].
  split; [reflexivity|]. split; [reflexivity|].
  unfold body_invariant. cbn [lines oldlines newlines last_origin].
  rewrite !count_lines_snoc, last_origin_of_snoc, Hlines, <- app_assoc.
  rewrite Hold in Hfo, Hc. rewrite Hnew in Hfn, Hc.
  replace (old_start hunk + old_lines hunk
           - (old_lines hunk - count_lines on_old_side emitted))
    with (old_start hunk + count_lines on_old_side emitted) in * by lia.
  replace (new_start hunk + new_lines hunk
           - (new_lines hunk - count_lines on_new_side emitted))
    with (new_start hunk + count_lines on_new_side emitted) in * by lia.
  assert (Hm1 : fits_int (-1) = true) by reflexivity.
  apply classify_ok in Hc as [-> | [-> | [-> | [Hzero ->]]]].
  - cbn. refine (conj eq_refl (conj _ (conj _ (conj eq_refl (conj _ _))))); try lia.
    + apply each_line_snoc; [assumption|]. unfold well_numbered. cbn. auto.
    + apply each_line_snoc; [assumption|]. intros H; discriminate H.
  - cbn. refine (conj eq_refl (conj _ (conj _ (conj eq_refl (conj _ _))))); try lia.
    + apply each_line_snoc; [assumption|]. unfold well_numbered. cbn. auto.
    + apply each_line_snoc; [assumption|]. intros H; discriminate H.
  - cbn. refine (conj eq_refl (conj _ (conj _ (conj eq_refl (conj _ _))))); try lia.
    + apply each_line_snoc; [assumption|]. unfold well_numbered. cbn. auto.
    + apply each_line_snoc; [assumption|]. intros H; discriminate H.
  - destruct (eof_for_origin_sides (last_origin v)) as [Hise Hsides].
    destruct (Hsides (make_line ctx
                (mk_classified (eof_for_origin (last_origin v)) 0 (-1) (-1)
                   (oldlines v) (newlines v))) eq_refl) as [Ho Hn].
    rewrite Ho, Hn. cbn [c_oldlines c_newlines c_origin].
    refine (conj eq_refl (conj _ (conj _ (conj eq_refl (conj _ _))))); try lia.
    + apply each_line_snoc; [assumption|].
      unfold well_numbered. rewrite Ho, Hn. cbn. auto.
    + apply each_line_snoc; [assumption|].
      intros _. cbn. rewrite Hlast. auto.
Qed.

(** The loop's step of the cursor is [git_parse_advance_line]. *)
Lemma advance_line_cons (clen ln : Z) (l : string) (rest : list string) :
  git_parse_advance_line (mk_ctx clen (l :: rest) ln) = mk_ctx clen rest (ln + 1).
Proof. reflexivity. Qed.

Lemma initial_invariant (hunk : git_diff_hunk) (patch_lines : list git_diff_line) :
  body_invariant hunk patch_lines (initial_vars hunk patch_lines) [].
Proof.
  unfold body_invariant, initial_vars, count_lines. cbn.
  rewrite app_nil_r.
  refine (conj eq_refl (conj _ (conj _ (conj eq_refl (conj _ _))))); try lia;
    apply each_line_nil.
Qed.

(** The loop keeps the invariant, and stops at the end of the input or with
    both counters used up. *)
Lemma hunk_body_loop_invariant (hunk : git_diff_hunk) (patch_lines : list git_diff_line)
    (clen : Z) (ls : list string) :
  forall (ln : Z) (v : body_vars) (emitted : list git_diff_line)
         (ctx' : git_parse_ctx) (v' : body_vars),
    body_invariant hunk patch_lines v emitted ->
    hunk_body_loop hunk clen ls ln v = Ok (ctx', v') ->
    (exists emitted', body_invariant hunk patch_lines v' emitted')
    /\ (counters_done v' = false -> remain ctx' = []).
Proof.
  induction ls as [|l rest IH]; intros ln v emitted ctx' v' Hinv Hloop;
    cbn [hunk_body_loop] in Hloop.
  - injection Hloop as <- <-. split; [eauto | reflexivity].
  - destruct (counters_done v) eqn:Hdone.
    + injection Hloop as <- <-. split; [eauto | congruence].
    + destruct (hunk_line hunk (mk_ctx clen (l :: rest) ln) v) as [e|v1] eqn:Hstep;
        cbn [bind] in Hloop; [discriminate|].
      destruct (hunk_line_invariant _ _ _ _ _ _ Hinv Hstep) as (x & _ & _ & Hinv1).
      exact (IH _ _ _ _ _ Hinv1 Hloop).
Qed.

Section WithTrailingTest.

Variable lacks_trailing_newline : git_diff_line -> bool.

Lemma parse_hunk_body_inv (hunk : git_diff_hunk) (ctx : git_parse_ctx)
    (patch_lines : list git_diff_line) (r : git_parse_ctx * body_vars) :
  parse_hunk_body lacks_trailing_newline hunk ctx patch_lines = Ok r ->
  exists ctx1 v1,
    hunk_body_loop hunk (content_len ctx) (remain ctx) (line_num ctx)
      (initial_vars hunk patch_lines) = Ok (ctx1, v1)
    /\ counters_done v1 = true
    /\ trailing_eofnl lacks_trailing_newline ctx1 v1 = Ok r.
Proof.
  unfold parse_hunk_body.
  destruct (hunk_body_loop _ _ _ _ _) as [e|[ctx1 v1]]; cbn [bind fst snd];
    [discriminate|].
  destruct (counters_done v1) eqn:Hdone; [|discriminate].
  intros H. exists ctx1, v1. auto.
Qed.

(** What a successful [parse_hunk_body] has added to the lines of the
    patch. *)
Lemma parse_hunk_body_ok (hunk : git_diff_hunk) (ctx ctx' : git_parse_ctx)
    (patch_lines : list git_diff_line) (v' : body_vars) :
  parse_hunk_body lacks_trailing_newline hunk ctx patch_lines = Ok (ctx', v') ->
  exists emitted,
    lines v' = patch_lines ++ emitted
    /\ count_lines on_old_side emitted = old_lines hunk
    /\ count_lines on_new_side emitted = new_lines hunk
    /\ each_line (well_numbered hunk) emitted
    /\ each_line eofnl_from_previous emitted.
Proof.
  intros H. apply parse_hunk_body_inv in H as (ctx1 & v1 & Hloop & Hdone & Htrail).
  destruct (hunk_body_loop_invariant _ _ _ _ _ _ _ _ _
              (initial_invariant hunk patch_lines) Hloop)
    as [(emitted & Hlines & Hold & Hnew & Hlast & Hnum & Heof) _].
  unfold counters_done in Hdone. apply andb_prop in Hdone as [Ho Hn].
  apply Z.eqb_eq in Ho, Hn.
  unfold trailing_eofnl in Htrail.
  assert (Hsame : (ctx', v') = (ctx1, v1) ->
            exists emitted0,
              lines v' = patch_lines ++ emitted0
              /\ count_lines on_old_side emitted0 = old_lines hunk
              /\ count_lines on_new_side emitted0 = new_lines hunk
              /\ each_line (well_numbered hunk) emitted0
              /\ each_line eofnl_from_previous emitted0).
  { intros [= -> ->]. exists emitted.
    refine (conj Hlines (conj _ (conj _ (conj Hnum Heof)))); lia. }
  destruct (peek ctx1) as [[[] [] [] [] [] [] [] []]|];
    try (injection Htrail as <- <-; now apply Hsame).
  destruct (rev (lines v1)) as [|last_line before];
    [injection Htrail as <- <-; now apply Hsame|].
  destruct (lacks_trailing_newline last_line); [discriminate|].
  injection Htrail as <- <-. cbn [lines].
  destruct (eof_for_origin_sides (last_origin v1)) as [_ Hsides].
  destruct (Hsides (eofnl_line ctx1 v1) eq_refl) as [Hso Hsn].
  exists (emitted ++ [eofnl_line ctx1 v1]).
  rewrite !count_lines_snoc, Hso, Hsn, Hlines, <- app_assoc.
  refine (conj eq_refl (conj _ (conj _ (conj _ _)))); try lia.
  - apply each_line_snoc; [assumption|].
    unfold well_numbered. rewrite Hso, Hsn. cbn. auto.
  - apply each_line_snoc; [assumption|].
    intros _. cbn. rewrite Hlast. auto.
Qed.

End WithTrailingTest.

End HunkBodyFacts.

(** ** Line counts of a hunk *)

Section HunkCounts.
Import PatchParse.

Variable lacks_trailing_newline : git_diff_line -> bool.

(** C1: when [parse_hunk_body] succeeds, the lines it added with origin
    context or deletion are exactly [old_lines] many and those with origin
    context or addition exactly [new_lines] many; and when the loop stops
    with a counter that is not zero, which happens only at the end of the
    input, the function fails with the count error instead of returning
    the hunk. *)
Theorem hunk_counts_match (hunk : git_diff_hunk) (ctx : git_parse_ctx)
    (patch_lines : list git_diff_line) :
  (forall ctx' v',
     parse_hunk_body lacks_trailing_newline hunk ctx patch_lines = Ok (ctx', v') ->
     exists emitted,
       lines v' = patch_lines ++ emitted
       /\ count_lines on_old_side emitted = old_lines hunk
       /\ count_lines on_new_side emitted = new_lines hunk)
  /\ (forall ctx1 v1,
        hunk_body_loop hunk (content_len ctx) (remain ctx) (line_num ctx)
          (initial_vars hunk patch_lines) = Ok (ctx1, v1) ->
        oldlines v1 <> 0 \/ newlines v1 <> 0 ->
        remain ctx1 = []
        /\ parse_hunk_body lacks_trailing_newline hunk ctx patch_lines
           = Err (hunk_count_mismatch (old_lines hunk) (new_lines hunk))).
Proof.
  split.
  - intros ctx' v' H.
    apply parse_hunk_body_ok in H as (emitted & Hl & Ho & Hn & _).
    exists emitted. auto.
  - intros ctx1 v1 Hloop Hleft.
    assert (Hdone : counters_done v1 = false).
    { unfold counters_done. apply andb_false_iff.
      destruct Hleft as [H|H]; [left | right]; now apply Z.eqb_neq. }
    split.
    + eapply hunk_body_loop_invariant;
        [apply initial_invariant | exact Hloop | exact Hdone].
    + unfold parse_hunk_body. rewrite Hloop. unfold Ok, bind. cbn [fst snd].
      now rewrite Hdone.
Qed.

End HunkCounts.

Lemma hunk_counts_match_witness :
  exists ctx' v' emitted,
    PatchParse.parse_hunk_body PatchParse.no_content PatchParse.example_hunk
      PatchParse.example_body [] = PatchParse.Ok (ctx', v')
    /\ PatchParse.lines v' = [] ++ emitted
    /\ PatchParse.count_lines PatchParse.on_old_side emitted = 1
    /\ PatchParse.count_lines PatchParse.on_new_side emitted = 1.
Proof.
  destruct (PatchParse.parse_hunk_body PatchParse.no_content
              PatchParse.example_hunk PatchParse.example_body [])
    as [e|[ctx' v']] eqn:E.
  - exfalso. vm_compute in E. discriminate E.
  - destruct (hunk_counts_match PatchParse.no_content PatchParse.example_hunk
                PatchParse.example_body []) as [Hok _].
    destruct (Hok ctx' v' E) as (emitted & Hl & Ho & Hn).
    exists ctx', v', emitted. auto.
Defined.

(** ** Where the loop stands after some lines *)

Section HunkSteps.
Import PatchParse HunkRun.

Lemma hunk_body_steps_continue (hunk : git_diff_hunk) (clen : Z) (n : nat) :
  forall (ls : list string) (ln : Z) (v : body_vars)
         (c : git_parse_ctx) (v' : body_vars),
    hunk_body_steps n hunk clen ls ln v = Ok (c, v') ->
    content_len c = clen
    /\ (exists consumed,
          ls = consumed ++ remain c
          /\ line_num c = ln + Z.of_nat (List.length consumed))
    /\ hunk_body_loop hunk clen ls ln v
       = hunk_body_loop hunk clen (remain c) (line_num c) v'.
Proof.
  induction n as [|n IH]; intros ls ln v c v' H.
  - cbn [hunk_body_steps] in H. injection H as <- <-. cbn [content_len remain line_num].
    split; [reflexivity|]. split; [|reflexivity].
    exists []. cbn. split; [reflexivity | lia].
  - destruct ls as [|l rest].
    + cbn [hunk_body_steps] in H. injection H as <- <-.
      cbn [content_len remain line_num].
      split; [reflexivity|]. split; [|reflexivity].
      exists []. cbn. split; [reflexivity | lia].
    + cbn [hunk_body_steps] in H. cbn [hunk_body_loop].
      destruct (counters_done v) eqn:Hdone.
      * injection H as <- <-. cbn [content_len remain line_num hunk_body_loop].
        rewrite Hdone. split; [reflexivity|]. split; [|reflexivity].
        exists []. cbn. split; [reflexivity | lia].
      * destruct (hunk_line hunk (mk_ctx clen (l :: rest) ln) v) as [e|v1];
          cbn [bind] in *; [discriminate|].
        apply IH in H as (Hclen & (consumed & Hls & Hnum) & Hloop).
        split; [assumption|]. split; [|assumption].
        exists (l :: consumed). cbn [app List.length].
        split; [now rewrite Hls | lia].
Qed.

(** An error of the loop body at a line the loop gets to is the error of
    [parse_hunk_body]. *)
Lemma parse_hunk_body_error_at (lacks : git_diff_line -> bool)
    (hunk : git_diff_hunk) (ctx : git_parse_ctx)
    (patch_lines : list git_diff_line) (n : nat)
    (at_line : git_parse_ctx) (v : body_vars) (e : parse_error) :
  hunk_body_steps n hunk (content_len ctx) (remain ctx) (line_num ctx)
    (initial_vars hunk patch_lines) = Ok (at_line, v) ->
  remain at_line <> [] ->
  counters_done v = false ->
  hunk_line hunk at_line v = Err e ->
  parse_hunk_body lacks hunk ctx patch_lines = Err e.
Proof.
  intros Hsteps Hne Hdone Herr.
  apply hunk_body_steps_continue in Hsteps as (Hclen & _ & Hloop).
  unfold parse_hunk_body. rewrite Hloop.
  destruct at_line as [clen' ls' ln']. cbn [content_len remain line_num] in *.
  subst clen'. destruct ls' as [|l rest]; [now elim Hne|].
  cbn [hunk_body_loop]. rewrite Hdone, Herr. reflexivity.
Qed.

End HunkSteps.

(** ** Overflow of the line numbers *)

Section LineNumberOverflow.
Import Integer PatchParse.

Variable lacks_trailing_newline : git_diff_line -> bool.

(** C2, amended: the additions and subtractions that give the running line
    numbers of a body line are checked against the range of the C type
    [int] (32 bits).  A body line at which one of the four leaves that
    range fails with "unrepresentable line count" at the cursor's line, and
    with it the whole hunk, whichever body line of the hunk it is: the
    first, or one the loop gets to after [n] lines, whose line number is
    that of the first plus the lines in front of it.  Every line of a hunk
    that parses carries, on a side it counts against, the start of the hunk
    plus the number of lines of that side in front of it, within the range
    of [int], and -1 on the other side. *)
Theorem line_numbers_checked (hunk : git_diff_hunk) (ctx : git_parse_ctx)
    (patch_lines : list git_diff_line) :
  (forall (at_line : git_parse_ctx) (v : body_vars),
     line_numbers_fit hunk v = false ->
     hunk_line hunk at_line v = Err (unrepresentable_line_count (line_num at_line)))
  /\ (remain ctx <> [] ->
      counters_done (initial_vars hunk patch_lines) = false ->
      line_numbers_fit hunk (initial_vars hunk patch_lines) = false ->
      parse_hunk_body lacks_trailing_newline hunk ctx patch_lines
      = Err (unrepresentable_line_count (line_num ctx)))
  /\ (forall ctx' v',
        parse_hunk_body lacks_trailing_newline hunk ctx patch_lines = Ok (ctx', v') ->
        exists emitted,
          lines v' = patch_lines ++ emitted
          /\ each_line (well_numbered hunk) emitted)
  /\ (forall (n : nat) (at_line : git_parse_ctx) (v : body_vars),
        HunkRun.hunk_body_steps n hunk (content_len ctx) (remain ctx) (line_num ctx)
          (initial_vars hunk patch_lines) = Ok (at_line, v) ->
        remain at_line <> [] ->
        counters_done v = false ->
        line_numbers_fit hunk v = false ->
        parse_hunk_body lacks_trailing_newline hunk ctx patch_lines
        = Err (unrepresentable_line_count (line_num at_line))
        /\ exists consumed,
             remain ctx = consumed ++ remain at_line
             /\ line_num at_line = line_num ctx + Z.of_nat (List.length consumed)).
Proof.
  assert (Hstep : forall at_line v,
            line_numbers_fit hunk v = false ->
            hunk_line hunk at_line v
            = Err (unrepresentable_line_count (line_num at_line))).
  { intros at_line v Hfit. unfold hunk_line.
    rewrite line_numbers_spec, Hfit. reflexivity. }
  split; [exact Hstep|]. split; [|split].
  - intros Hne Hdone Hfit. unfold parse_hunk_body.
    destruct ctx as [clen ls ln]. cbn [remain content_len line_num] in *.
    destruct ls as [|l rest]; [now elim Hne|].
    cbn [hunk_body_loop]. rewrite Hdone, (Hstep _ _ Hfit). reflexivity.
  - intros ctx' v' H.
    apply parse_hunk_body_ok in H as (emitted & Hl & _ & _ & Hnum & _).
    exists emitted. auto.
  - intros n at_line v Hsteps Hne Hdone Hfit. split.
    + exact (parse_hunk_body_error_at _ _ _ _ _ _ _ _ Hsteps Hne Hdone
               (Hstep _ _ Hfit)).
    + apply hunk_body_steps_continue in Hsteps as (_ & Hpos & _). exact Hpos.
Qed.

End LineNumberOverflow.

(** The overflow at the first body line of one hunk, and at the third
    body line of another. *)
Lemma line_numbers_checked_witness :
  (PatchParse.remain PatchParse.one_context_line <> []
   /\ PatchParse.line_numbers_fit PatchParse.overflowing_hunk
        (PatchParse.initial_vars PatchParse.overflowing_hunk []) = false
   /\ PatchParse.parse_hunk_body PatchParse.no_content PatchParse.overflowing_hunk
        PatchParse.one_context_line []
      = PatchParse.Err (PatchParse.unrepresentable_line_count 5))
  /\ PatchParse.parse_hunk_body PatchParse.no_content HunkRun.late_overflow_hunk
       HunkRun.three_deletions []
     = PatchParse.Err (PatchParse.unrepresentable_line_count 3).
Proof.
  split.
  - split; [discriminate|]. split; [reflexivity|].
    destruct (line_numbers_checked PatchParse.no_content PatchParse.overflowing_hunk
                PatchParse.one_context_line []) as (_ & Hfirst & _).
    apply Hfirst; [discriminate | reflexivity | reflexivity].
  - destruct (line_numbers_checked PatchParse.no_content HunkRun.late_overflow_hunk
                HunkRun.three_deletions []) as (_ & _ & _ & Hlater).
    destruct (HunkRun.hunk_body_steps 2 HunkRun.late_overflow_hunk
                (PatchParse.content_len HunkRun.three_deletions)
                (PatchParse.remain HunkRun.three_deletions)
                (PatchParse.line_num HunkRun.three_deletions)
                (PatchParse.initial_vars HunkRun.late_overflow_hunk []))
      as [e|[at_line v]] eqn:E.
    + exfalso. vm_compute in E. discriminate E.
    + pose proof (Hlater 2%nat at_line v E) as H.
      vm_compute in E. injection E as <- <-.
      destruct H as [Herr _]; [discriminate | reflexivity | reflexivity |].
      exact Herr.
Defined.

(** C2 as stated fails: for [@@ -2147483647 +1 @@] none of the four
    operations leaves the signed 64-bit range, and the first body line is
    refused all the same, because the sum leaves the range of [int]. *)
Lemma line_numbers_checked_counterexample :
  Integer.fits_int64 (PatchParse.old_start PatchParse.overflowing_hunk
                      + PatchParse.old_lines PatchParse.overflowing_hunk) = true
  /\ Integer.fits_int64 (PatchParse.old_start PatchParse.overflowing_hunk
                         + PatchParse.old_lines PatchParse.overflowing_hunk
                         - PatchParse.old_lines PatchParse.overflowing_hunk) = true
  /\ Integer.fits_int64 (PatchParse.new_start PatchParse.overflowing_hunk
                         + PatchParse.new_lines PatchParse.overflowing_hunk) = true
  /\ Integer.fits_int64 (PatchParse.new_start PatchParse.overflowing_hunk
                         + PatchParse.new_lines PatchParse.overflowing_hunk
                         - PatchParse.new_lines PatchParse.overflowing_hunk) = true
  /\ Integer.git__add_int_overflow
       (PatchParse.old_start PatchParse.overflowing_hunk)
       (PatchParse.old_lines PatchParse.overflowing_hunk) = None
  /\ PatchParse.parse_hunk_body PatchParse.no_content PatchParse.overflowing_hunk
       PatchParse.one_context_line []
     = PatchParse.Err (PatchParse.unrepresentable_line_count 5).
Proof. repeat split; reflexivity. Qed.

(** ** The "no newline at end of file" marker *)

Section EofnlMarker.
Import PatchParse.

Variable lacks_trailing_newline : git_diff_line -> bool.


Lemma classify_marker (ctx : git_parse_ctx) (v : body_vars) (o n : Z) :
  peek ctx = Some "\"%char ->
  oldlines v = 0 ->
  classify ctx v o n
  = Ok (mk_classified (eof_for_origin (last_origin v)) 0 (-1) (-1)
          (oldlines v) (newlines v)).
Proof.
  intros Hpeek Hzero. unfold classify. rewrite Hpeek, Hzero. reflexivity.
Qed.



End EofnlMarker.



(** ** A last line without trailing newline *)

Section MissingNewline.
Import PatchParse.

Variable lacks_trailing_newline : git_diff_line -> bool.




End MissingNewline.



(** ** References on the table of a snapshot *)

Section SnapshotReferences.
Import ConfigSnapshot SnapshotEntries.

Variable lookup : list git_config_entry -> string -> Z + git_config_entry.

Lemma entries_eta (t : git_config_entries) (n : Z) :
  n = refcount t -> {| refcount := n; items := items t |} = t.
Proof. intros ->. now destruct t. Qed.

Lemma incref_then_free (t : git_config_entries) :
  1 <= refcount t ->
  git_config_entries_free (git_config_entries_incref (Some t)) = Some t.
Proof.
  intros H. cbn. destruct (Z.leb_spec (refcount t + 1 - 1) 0); [lia|].
  f_equal. apply entries_eta. lia.
Qed.

(** X1: a [config_snapshot_get] that fails, because the lock is not
    obtained or because the key is not found, returns the failing code,
    hands out no entry and leaves the table of the backend with the
    references it had. *)
Theorem get_failure_keeps_references (key : string) (t : git_config_entries)
    (err : option git_error) :
  1 <= refcount t ->
  (get_code (config_snapshot_get lookup true key t err) = -1
   /\ out (config_snapshot_get lookup true key t err) = None
   /\ table_after (config_snapshot_get lookup true key t err) = Some t)
  /\ (forall code, lookup (items t) key = inl code ->
        get_code (config_snapshot_get lookup false key t err) = code
        /\ out (config_snapshot_get lookup false key t err) = None
        /\ table_after (config_snapshot_get lookup false key t err) = Some t
        /\ error_after (config_snapshot_get lookup false key t err) = err).
Proof.
  intros Href. split; [now cbn|].
  intros code Hmiss. unfold config_snapshot_get. rewrite Hmiss.
  cbn [get_code out table_after error_after].
  now rewrite incref_then_free.
Qed.

(** X2: a [config_snapshot_get] that finds the key returns 0 with the entry
    found, holds one more reference on the table, and running the [free]
    member of the entry gives that reference back: the table is as before
    the call. *)
Theorem get_then_free_restores (key : string) (t : git_config_entries)
    (err : option git_error) (e : git_config_entry) :
  1 <= refcount t ->
  lookup (items t) key = inr e ->
  get_code (config_snapshot_get lookup false key t err) = 0
  /\ table_after (config_snapshot_get lookup false key t err)
     = Some {| refcount := refcount t + 1; items := items t |}
  /\ exists h,
       out (config_snapshot_get lookup false key t err) = Some h
       /\ entry h = e
       /\ free h (table_after (config_snapshot_get lookup false key t err)) = Some t.
Proof.
  intros Href Hhit. unfold config_snapshot_get. rewrite Hhit.
  cbn [get_code out table_after]. split; [reflexivity|]. split; [reflexivity|].
  eexists. split; [reflexivity|]. split; [reflexivity|].
  cbn [free]. unfold config_snapshot_entry_free. now apply incref_then_free.
Qed.

Lemma table_after_gets (key : string) (t : git_config_entries)
    (e : git_config_entry) (n : nat) :
  lookup (items t) key = inr e ->
  Nat.iter n (table_after_get lookup key) (Some t)
  = Some {| refcount := refcount t + Z.of_nat n; items := items t |}.
Proof.
  intros Hhit. induction n as [|n IH].
  - cbn. f_equal. symmetry. apply entries_eta. lia.
  - rewrite Nat.iter_succ, IH. unfold table_after_get, config_snapshot_get.
    cbn [items]. rewrite Hhit. cbn. do 2 f_equal. lia.
Qed.

Lemma frees_count_down (its : list git_config_entry) (m : Z) (k : nat) :
  1 <= m ->
  Z.of_nat k <= m ->
  Nat.iter k config_snapshot_entry_free (Some {| refcount := m; items := its |})
  = if Z.of_nat k <? m
    then Some {| refcount := m - Z.of_nat k; items := its |}
    else None.
Proof.
  intros Hm. induction k as [|k IH]; intros Hk.
  - cbn [Nat.iter]. destruct (Z.ltb_spec (Z.of_nat 0) m); [|lia].
    replace (m - Z.of_nat 0) with m by lia. reflexivity.
  - rewrite Nat.iter_succ, IH by lia.
    destruct (Z.ltb_spec (Z.of_nat k) m); [|lia].
    unfold config_snapshot_entry_free, git_config_entries_free. cbn [refcount items].
    destruct (Z.leb_spec (m - Z.of_nat k - 1) 0);
      destruct (Z.ltb_spec (Z.of_nat (S k)) m); try lia; [reflexivity|].
    replace (m - Z.of_nat k - 1) with (m - Z.of_nat (S k)) by lia. reflexivity.
Qed.

(** X3: the table lives as long as somebody holds it.  On a backend that
    alone holds its table, after [n] lookups that found their key, the
    release of the backend and the release of [k] of the [n] entries, the
    table is still there, with [n - k] references, if an entry is left,
    and is released with the last of them. *)
Theorem table_outlives_backend (key : string) (t : git_config_entries)
    (e : git_config_entry) (n k : nat) :
  refcount t = 1 ->
  lookup (items t) key = inr e ->
  (k <= n)%nat ->
  Nat.iter k config_snapshot_entry_free
    (config_snapshot_free false
       (Nat.iter n (table_after_get lookup key) (Some t)))
  = if (k <? n)%nat
    then Some {| refcount := Z.of_nat n - Z.of_nat k; items := items t |}
    else None.
Proof.
  intros Hone Hhit Hk.
  rewrite (table_after_gets key t e n Hhit), Hone.
  unfold config_snapshot_free, git_config_entries_free. cbn [refcount items].
  destruct (Z.leb_spec (1 + Z.of_nat n - 1) 0) as [Hz|Hz].
  - assert (n = 0%nat) by lia. assert (k = 0%nat) by lia. subst. reflexivity.
  - replace (1 + Z.of_nat n - 1) with (Z.of_nat n) by lia.
    rewrite frees_count_down by lia.
    destruct (Z.ltb_spec (Z.of_nat k) (Z.of_nat n));
      destruct (Nat.ltb_spec k n); try lia; reflexivity.
Qed.

End SnapshotReferences.

Lemma get_failure_keeps_references_witness :
  SnapshotEntries.get_code
    (SnapshotEntries.config_snapshot_get SnapshotEntries.lookup_last false
       "core.bare"
       (SnapshotEntries.mk_entries 1 [ConfigSnapshot.mk_entry "user.name" "a"])
       None) = -3
  /\ SnapshotEntries.table_after
       (SnapshotEntries.config_snapshot_get SnapshotEntries.lookup_last false
          "core.bare"
          (SnapshotEntries.mk_entries 1 [ConfigSnapshot.mk_entry "user.name" "a"])
          None)
     = Some (SnapshotEntries.mk_entries 1 [ConfigSnapshot.mk_entry "user.name" "a"]).
Proof.
  destruct (get_failure_keeps_references SnapshotEntries.lookup_last "core.bare"
              (SnapshotEntries.mk_entries 1 [ConfigSnapshot.mk_entry "user.name" "a"])
              None) as [_ Hmiss]; [cbn; lia|].
  destruct (Hmiss (-3) eq_refl) as (Hc & _ & Ht & _). split; assumption.
Defined.

Lemma get_then_free_restores_witness :
  exists h,
    SnapshotEntries.out
      (SnapshotEntries.config_snapshot_get SnapshotEntries.lookup_last false
         "user.name"
         (SnapshotEntries.mk_entries 1
            [ConfigSnapshot.mk_entry "user.name" "a";
             ConfigSnapshot.mk_entry "user.name" "b"])
         None) = Some h
    /\ SnapshotEntries.entry h = ConfigSnapshot.mk_entry "user.name" "b"
    /\ SnapshotEntries.free h
         (SnapshotEntries.table_after
            (SnapshotEntries.config_snapshot_get SnapshotEntries.lookup_last false
               "user.name"
               (SnapshotEntries.mk_entries 1
                  [ConfigSnapshot.mk_entry "user.name" "a";
                   ConfigSnapshot.mk_entry "user.name" "b"])
               None))
       = Some (SnapshotEntries.mk_entries 1
                 [ConfigSnapshot.mk_entry "user.name" "a";
                  ConfigSnapshot.mk_entry "user.name" "b"]).
Proof.
  destruct (get_then_free_restores SnapshotEntries.lookup_last "user.name"
              (SnapshotEntries.mk_entries 1
                 [ConfigSnapshot.mk_entry "user.name" "a";
                  ConfigSnapshot.mk_entry "user.name" "b"])
              None (ConfigSnapshot.mk_entry "user.name" "b"))
    as (_ & _ & h & Hout & Hentry & Hfree); [cbn; lia | reflexivity |].
  exists h. auto.
Defined.

(** Two entries handed out, the backend released, one entry released: the
    table is held by the entry that is left. *)
Lemma table_outlives_backend_witness :
  Nat.iter 1 SnapshotEntries.config_snapshot_entry_free
    (SnapshotEntries.config_snapshot_free false
       (Nat.iter 2
          (SnapshotEntries.table_after_get SnapshotEntries.lookup_last "user.name")
          (Some (SnapshotEntries.mk_entries 1
                   [ConfigSnapshot.mk_entry "user.name" "a"]))))
  = Some (SnapshotEntries.mk_entries 1 [ConfigSnapshot.mk_entry "user.name" "a"]).
Proof.
  apply (table_outlives_backend SnapshotEntries.lookup_last "user.name"
           (SnapshotEntries.mk_entries 1 [ConfigSnapshot.mk_entry "user.name" "a"])
           (ConfigSnapshot.mk_entry "user.name" "a") 2 1);
    [reflexivity | reflexivity | lia].
Defined.

(** ** Opening a snapshot *)

Section SnapshotOpen.
Import ConfigSnapshot SnapshotEntries.

Variable GIT_ITEROVER : Z.
Variable dup_entry : list git_config_entry -> git_config_entry -> Z * list git_config_entry.

Lemma copy_entries_all (entries pending : list git_config_entry) (last : Z) :
  (forall t e, 0 <= fst (dup_entry t e) /\ snd (dup_entry t e) = t ++ [e]) ->
  copy_entries dup_entry entries pending last = inr (last, entries ++ pending).
Proof.
  intros Hdup. revert entries.
  induction pending as [|e rest IH]; intros entries; cbn [copy_entries].
  - now rewrite app_nil_r.
  - destruct (Hdup entries e) as [Hcode Htable].
    destruct (Z.ltb_spec (fst (dup_entry entries e)) 0); [lia|].
    rewrite Htable, IH, <- app_assoc. reflexivity.
Qed.

Lemma copy_entries_failure (entries pending : list git_config_entry) (last code : Z) :
  copy_entries dup_entry entries pending last = inl code -> code < 0.
Proof.
  revert entries. induction pending as [|e rest IH]; intros entries;
    cbn [copy_entries]; [discriminate|].
  destruct (Z.ltb_spec (fst (dup_entry entries e)) 0) as [Hneg|Hpos].
  - now intros [= <-].
  - apply IH.
Qed.

(** X4: when the table can be made, the source gives an iterator that ends
    with [GIT_ITEROVER] and every duplication works, [config_snapshot_open]
    returns 0 and stores in the backend a table with the entries the
    iterator gave, all of them and in its order; the table is not
    released. *)
Theorem open_copies_source (new_code : Z) (ys : list git_config_entry) :
  GIT_ITEROVER < 0 ->
  0 <= new_code ->
  (forall t e, 0 <= fst (dup_entry t e) /\ snd (dup_entry t e) = t ++ [e]) ->
  config_snapshot_open GIT_ITEROVER dup_entry new_code
    (inr (mk_iterator ys GIT_ITEROVER))
  = {| open_code := 0; installed := Some ys; released := false |}.
Proof.
  intros Hover Hnew Hdup. unfold config_snapshot_open.
  destruct (Z.ltb_spec new_code 0); [lia|].
  cbn [yields final]. rewrite (copy_entries_all _ _ _ Hdup). cbn [app].
  destruct (Z.ltb_spec GIT_ITEROVER 0); [|lia].
  now rewrite Z.eqb_refl.
Qed.

(** X5: a [config_snapshot_open] that returns a negative code leaves the
    table of the backend as it was, and has released the table it built
    (if it got as far as building one); one that returns 0 has stored a
    table and not released it.  An iteration that ends with another
    negative code than [GIT_ITEROVER] fails with that code. *)
Theorem open_failure_keeps_backend (new_code : Z)
    (source_iterator : Z + git_config_iterator) :
  (forall code, source_iterator = inl code -> code < 0) ->
  (open_code (config_snapshot_open GIT_ITEROVER dup_entry new_code source_iterator) < 0 ->
     installed (config_snapshot_open GIT_ITEROVER dup_entry new_code source_iterator) = None
     /\ released (config_snapshot_open GIT_ITEROVER dup_entry new_code source_iterator)
        = (0 <=? new_code))
  /\ (open_code (config_snapshot_open GIT_ITEROVER dup_entry new_code source_iterator) = 0 ->
      installed (config_snapshot_open GIT_ITEROVER dup_entry new_code source_iterator) <> None
      /\ released (config_snapshot_open GIT_ITEROVER dup_entry new_code source_iterator)
         = false)
  /\ (forall it entries,
        0 <= new_code ->
        source_iterator = inr it ->
        copy_entries dup_entry [] (yields it) (final it) = inr (final it, entries) ->
        final it < 0 -> final it <> GIT_ITEROVER ->
        open_code (config_snapshot_open GIT_ITEROVER dup_entry new_code source_iterator)
        = final it).
Proof.
  intros Hsrc. unfold config_snapshot_open.
  destruct (Z.ltb_spec new_code 0) as [Hn|Hn].
  - cbn [open_code installed released]. split; [|split].
    + intros _. split; [reflexivity|]. symmetry. apply Z.leb_gt. exact Hn.
    + lia.
    + intros; lia.
  - assert (Hle : (0 <=? new_code) = true) by (apply Z.leb_le; exact Hn).
    rewrite Hle.
    destruct source_iterator as [code|it].
    + specialize (Hsrc code eq_refl). cbn [open_code installed released].
      split; [auto|]. split; [lia|]. intros it entries _ Heq. discriminate Heq.
    + destruct (copy_entries dup_entry [] (yields it) (final it))
        as [code|[code entries]] eqn:Hcopy.
      * pose proof (copy_entries_failure _ _ _ _ Hcopy) as Hneg.
        cbn [open_code installed released].
        split; [auto|]. split; [lia|].
        intros it' entries' _ [= <-] Hinr. congruence.
      * destruct (Z.ltb_spec code 0) as [Hc|Hc].
        -- destruct (Z.eqb_spec code GIT_ITEROVER) as [Heq|Hne];
             cbn [negb open_code installed released].
           ++ split; [lia|]. split; [split; [discriminate | reflexivity]|].
              intros it' entries' _ [= <-] Hinr _ Hnot. congruence.
           ++ split; [auto|]. split; [lia|].
              intros it' entries' _ [= <-] Hinr _ _. congruence.
        -- cbn [open_code installed released]. split; [lia|]. split.
           ++ intros ->. split; [discriminate | reflexivity].
           ++ intros it' entries' _ [= <-] Hinr Hneg _.
              assert (code = final it) by congruence. lia.
Qed.

End SnapshotOpen.

Lemma open_copies_source_witness :
  SnapshotEntries.config_snapshot_open (-31) SnapshotEntries.dup_append 0
    (inr (SnapshotEntries.mk_iterator
            [ConfigSnapshot.mk_entry "user.name" "a";
             ConfigSnapshot.mk_entry "core.bare" "false"] (-31)))
  = SnapshotEntries.mk_open 0
      (Some [ConfigSnapshot.mk_entry "user.name" "a";
             ConfigSnapshot.mk_entry "core.bare" "false"]) false.
Proof.
  apply (open_copies_source (-31) SnapshotEntries.dup_append 0
           [ConfigSnapshot.mk_entry "user.name" "a";
            ConfigSnapshot.mk_entry "core.bare" "false"]).
  - lia.
  - lia.
  - intros t e. cbn. split; [lia | reflexivity].
Defined.

(** An iterator that fails with -1 after its first entry. *)
Lemma open_failure_keeps_backend_witness :
  SnapshotEntries.installed
    (SnapshotEntries.config_snapshot_open (-31) SnapshotEntries.dup_append 0
       (inr (SnapshotEntries.mk_iterator
               [ConfigSnapshot.mk_entry "user.name" "a"] (-1)))) = None
  /\ SnapshotEntries.released
       (SnapshotEntries.config_snapshot_open (-31) SnapshotEntries.dup_append 0
          (inr (SnapshotEntries.mk_iterator
                  [ConfigSnapshot.mk_entry "user.name" "a"] (-1)))) = (0 <=? 0).
Proof.
  destruct (open_failure_keeps_backend (-31) SnapshotEntries.dup_append 0
              (inr (SnapshotEntries.mk_iterator
                      [ConfigSnapshot.mk_entry "user.name" "a"] (-1))))
    as [Hneg _]; [discriminate|].
  apply Hneg. cbn. lia.
Defined.

(** ** What the path handlers record *)

Section HeaderPathRecorded.
Import PatchParse.

Variable unquote : string -> Z + string.

Lemma parse_header_path_buf_nonempty (ctx : git_parse_ctx) (path_len : Z) (p : string) :
  parse_header_path_buf unquote ctx path_len = Ok p -> p <> EmptyString.
Proof.
  unfold parse_header_path_buf.
  match goal with
  | |- context [bind ?m _] => destruct m as [e|p']
  end; cbn [bind]; [discriminate|].
  destruct (Z.eqb_spec (Z.of_nat (String.length p')) 0) as [H0|H0]; [discriminate|].
  intros [= <-] ->. now apply H0.
Qed.

Lemma parse_header_path_buf_blank (ctx : git_parse_ctx) :
  parse_header_path_buf unquote ctx 0 = Err (empty_path (line_num ctx)).
Proof.
  unfold parse_header_path_buf.
  replace (substring 0 (to_nat 0) (line ctx)) with EmptyString
    by (now destruct (line ctx)).
  reflexivity.
Qed.

(** X6: on a line that is not empty, a path handler that succeeds has
    recorded a path that is not the empty string, on a side that had none,
    and has changed nothing else of the patch; and a line with nothing but
    its terminator after the marker is refused, on a side that has no path
    yet, with the empty path error at the cursor's line. *)
Theorem header_path_recorded (patch : git_patch_parsed) (ctx : git_parse_ctx) :
  0 < line_len ctx ->
  (forall patch',
     parse_header_git_oldpath unquote patch ctx = Ok patch' ->
     old_path patch = None
     /\ exists p, p <> EmptyString /\ patch' = set_old_path patch (Some p))
  /\ (forall patch',
        parse_header_git_newpath unquote patch ctx = Ok patch' ->
        new_path patch = None
        /\ exists p, p <> EmptyString /\ patch' = set_new_path patch (Some p))
  /\ (line_len ctx = 1 ->
      (old_path patch = None ->
       parse_header_git_oldpath unquote patch ctx = Err (empty_path (line_num ctx)))
      /\ (new_path patch = None ->
          parse_header_git_newpath unquote patch ctx = Err (empty_path (line_num ctx)))).
Proof.
  intros _. split; [|split].
  - intros patch'. unfold parse_header_git_oldpath.
    destruct (old_path patch); [discriminate|].
    destruct (parse_header_path_buf unquote ctx (line_len ctx - 1)) as [e|p] eqn:Hp;
      cbn [bind]; [discriminate|].
    intros [= <-]. split; [reflexivity|]. exists p. split; [|reflexivity].
    exact (parse_header_path_buf_nonempty _ _ _ Hp).
  - intros patch'. unfold parse_header_git_newpath.
    destruct (new_path patch); [discriminate|].
    destruct (parse_header_path_buf unquote ctx (line_len ctx - 1)) as [e|p] eqn:Hp;
      cbn [bind]; [discriminate|].
    intros [= <-]. split; [reflexivity|]. exists p. split; [|reflexivity].
    exact (parse_header_path_buf_nonempty _ _ _ Hp).
  - intros Hone. unfold parse_header_git_oldpath, parse_header_git_newpath.
    rewrite Hone. replace (1 - 1) with 0 by lia.
    rewrite parse_header_path_buf_blank.
    split; intros ->; reflexivity.
Qed.

End HeaderPathRecorded.

(** A "+++ " line with nothing behind the marker, on line 4. *)
Lemma header_path_recorded_witness :
  PatchParse.parse_header_git_newpath (fun s => inr s)
    (PatchParse.mk_patch (Some "a/f"%string) (Some "b/f"%string)
       (Some "a/f"%string) None None None PatchParse.GIT_DELTA_MODIFIED None None)
    (PatchParse.mk_ctx 40 [PatchParse.newline] 4)
  = PatchParse.Err (PatchParse.empty_path 4).
Proof.
  destruct (header_path_recorded (fun s => inr s)
              (PatchParse.mk_patch (Some "a/f"%string) (Some "b/f"%string)
                 (Some "a/f"%string) None None None PatchParse.GIT_DELTA_MODIFIED
                 None None)
              (PatchParse.mk_ctx 40 [PatchParse.newline] 4))
    as (_ & _ & Hblank); [reflexivity|].
  destruct (Hblank eq_refl) as [_ Hnew]. exact (Hnew eq_refl).
Defined.

(** ** Marker lines inside the loop *)

Section MarkerLines.
Import PatchParse.

(** X7: a line with a leading backslash that the loop takes (no old lines
    left) uses up neither counter; and as [last_origin] is assigned after
    such a line as after any other, a second such line right behind it
    gets the origin [CONTEXT_EOFNL], whatever the first one followed. *)
Theorem marker_after_marker (hunk : git_diff_hunk) (first second : git_parse_ctx)
    (v v1 v2 : body_vars) :
  peek first = Some "\"%char ->
  peek second = Some "\"%char ->
  oldlines v = 0 ->
  hunk_line hunk first v = Ok v1 ->
  hunk_line hunk second v1 = Ok v2 ->
  oldlines v1 = oldlines v /\ newlines v1 = newlines v
  /\ oldlines v2 = oldlines v /\ newlines v2 = newlines v
  /\ exists l1 l2,
       lines v2 = lines v ++ [l1; l2]
       /\ origin l1 = eof_for_origin (last_origin v)
       /\ origin l2 = GIT_DIFF_LINE_CONTEXT_EOFNL
       /\ content l1 = line first /\ content l2 = line second.
Proof.
  intros Hp1 Hp2 Hzero H1 H2.
  apply hunk_line_ok in H1 as (_ & c1 & Hc1 & ->).
  rewrite (classify_marker _ _ _ _ Hp1 Hzero) in Hc1. injection Hc1 as <-.
  apply hunk_line_ok in H2 as (_ & c2 & Hc2 & ->).
  cbn [oldlines newlines last_origin lines c_oldlines c_newlines c_origin] in *.
  rewrite (classify_marker second _ _ _ Hp2) in Hc2 by exact Hzero.
  injection Hc2 as <-.
  cbn [oldlines newlines last_origin lines c_oldlines c_newlines c_origin].
  repeat (split; [reflexivity|]).
  eexists _, _. rewrite <- app_assoc. split; [reflexivity|].
  cbn [origin make_line c_origin content c_prefix].
  split; [reflexivity|]. split; [now destruct (last_origin v) as [[]|]|].
  unfold skip_prefix. split.
  - now destruct (line first).
  - now destruct (line second).
Qed.

End MarkerLines.

Lemma marker_after_marker_witness :
  exists v1 v2 l1 l2,
    PatchParse.hunk_line (PatchParse.mk_hunk 1 0 1 1) PatchParse.marker_only
      (PatchParse.mk_vars 0 1 (Some PatchParse.GIT_DIFF_LINE_ADDITION) [] 0)
    = PatchParse.Ok v1
    /\ PatchParse.hunk_line (PatchParse.mk_hunk 1 0 1 1) PatchParse.marker_only v1
       = PatchParse.Ok v2
    /\ PatchParse.lines v2 = [] ++ [l1; l2]
    /\ PatchParse.origin l1 = PatchParse.GIT_DIFF_LINE_ADD_EOFNL
    /\ PatchParse.origin l2 = PatchParse.GIT_DIFF_LINE_CONTEXT_EOFNL.
Proof.
  destruct (PatchParse.hunk_line (PatchParse.mk_hunk 1 0 1 1) PatchParse.marker_only
              (PatchParse.mk_vars 0 1 (Some PatchParse.GIT_DIFF_LINE_ADDITION) [] 0))
    as [e|v1] eqn:E1; [exfalso; vm_compute in E1; discriminate E1|].
  destruct (PatchParse.hunk_line (PatchParse.mk_hunk 1 0 1 1) PatchParse.marker_only v1)
    as [e|v2] eqn:E2;
    [exfalso; vm_compute in E1; injection E1 as <-; vm_compute in E2; discriminate E2|].
  destruct (marker_after_marker (PatchParse.mk_hunk 1 0 1 1)
              PatchParse.marker_only PatchParse.marker_only
              (PatchParse.mk_vars 0 1 (Some PatchParse.GIT_DIFF_LINE_ADDITION) [] 0)
              v1 v2 eq_refl eq_refl eq_refl E1 E2)
    as (_ & _ & _ & _ & l1 & l2 & Hl & H1 & H2 & _).
  exists v1, v2, l1, l2. auto.
Defined.

(** ** The lines of a hunk and the input they come from *)

Section HunkLinesFollowInput.
Import PatchParse HunkInput.

Variable lacks_trailing_newline : git_diff_line -> bool.

Lemma skip_no_prefix (s : string) : skip_prefix 0 s = s.
Proof. now destruct s. Qed.

Lemma hunk_line_made_from (hunk : git_diff_hunk) (ctx : git_parse_ctx)
    (v v' : body_vars) :
  hunk_line hunk ctx v = Ok v' ->
  exists l, lines v' = lines v ++ [l] /\ made_from (line ctx) l.
Proof.
  intros H. apply hunk_line_ok in H as (_ & c & Hc & ->).
  exists (make_line ctx c). split; [reflexivity|].
  unfold made_from, prefix_of. cbn [make_line origin content line_content_len].
  apply classify_ok in Hc as [-> | [-> | [-> | [_ ->]]]];
    cbn [c_origin c_prefix is_eofnl]; try (split; reflexivity).
  destruct (eof_for_origin_sides (last_origin v)) as [-> _].
  split; reflexivity.
Qed.

Lemma hunk_body_loop_consumes (hunk : git_diff_hunk) (clen : Z) (ls : list string) :
  forall (ln : Z) (v : body_vars) (ctx' : git_parse_ctx) (v' : body_vars),
    hunk_body_loop hunk clen ls ln v = Ok (ctx', v') ->
    exists consumed emitted,
      ls = consumed ++ remain ctx'
      /\ lines v' = lines v ++ emitted
      /\ Forall2 made_from consumed emitted
      /\ line_num ctx' = ln + Z.of_nat (List.length consumed)
      /\ content_len ctx' = clen.
Proof.
  induction ls as [|s rest IH]; intros ln v ctx' v' Hloop;
    cbn [hunk_body_loop] in Hloop.
  - injection Hloop as <- <-. exists [], []. cbn. rewrite app_nil_r.
    repeat split; [constructor | lia].
  - destruct (counters_done v).
    + injection Hloop as <- <-. exists [], []. cbn. rewrite app_nil_r.
      repeat split; [constructor | lia].
    + destruct (hunk_line hunk (mk_ctx clen (s :: rest) ln) v) as [e|v1] eqn:Hstep;
        cbn [bind] in Hloop; [discriminate|].
      apply hunk_line_made_from in Hstep as (l & Hl & Hmade).
      apply IH in Hloop as (consumed & emitted & Hls & Hlines & Hall & Hnum & Hclen).
      exists (s :: consumed), (l :: emitted).
      rewrite Hlines, Hl, <- app_assoc. cbn [app List.length].
      split; [now rewrite Hls|]. split; [reflexivity|].
      split; [constructor; assumption|]. split; [lia | assumption].
Qed.

(** X8: the lines a successful [parse_hunk_body] adds are made one by one
    from the input lines it moves the cursor over, in their order: each
    holds its input line without the one-character marker (the whole line
    for an end-of-file pseudo-line) with the matching length, the cursor
    ends on the first line not used, and its line number has grown by the
    number of lines added. *)
Theorem hunk_lines_follow_input (hunk : git_diff_hunk) (ctx ctx' : git_parse_ctx)
    (patch_lines : list git_diff_line) (v' : body_vars) :
  parse_hunk_body lacks_trailing_newline hunk ctx patch_lines = Ok (ctx', v') ->
  exists consumed emitted,
    remain ctx = consumed ++ remain ctx'
    /\ lines v' = patch_lines ++ emitted
    /\ Forall2 made_from consumed emitted
    /\ line_num ctx' = line_num ctx + Z.of_nat (List.length emitted)
    /\ content_len ctx' = content_len ctx.
Proof.
  intros H. apply parse_hunk_body_inv in H as (ctx1 & v1 & Hloop & _ & Htrail).
  apply hunk_body_loop_consumes in Hloop
    as (consumed & emitted & Hls & Hlines & Hall & Hnum & Hclen).
  cbn [initial_vars lines] in Hlines.
  assert (Hlen : List.length consumed = List.length emitted)
    by (clear -Hall; induction Hall; cbn; congruence).
  assert (Hsame : (ctx', v') = (ctx1, v1) ->
            exists consumed0 emitted0,
              remain ctx = consumed0 ++ remain ctx'
              /\ lines v' = patch_lines ++ emitted0
              /\ Forall2 made_from consumed0 emitted0
              /\ line_num ctx' = line_num ctx + Z.of_nat (List.length emitted0)
              /\ content_len ctx' = content_len ctx).
  { intros [= -> ->]. exists consumed, emitted. rewrite <- Hlen. auto. }
  unfold trailing_eofnl in Htrail.
  destruct (peek ctx1) as [c|] eqn:Hpeek;
    [|injection Htrail as <- <-; now apply Hsame].
  destruct ctx1 as [clen1 [|s rest] ln1]; [discriminate Hpeek|].
  destruct c as [[] [] [] [] [] [] [] []];
    try (injection Htrail as <- <-; now apply Hsame).
  destruct (rev (lines v1)) as [|last_line before];
    [injection Htrail as <- <-; now apply Hsame|].
  destruct (lacks_trailing_newline last_line); [discriminate|].
  injection Htrail as <- <-.
  cbn [remain line_num content_len git_parse_advance_line tl lines] in *.
  exists (consumed ++ [s]), (emitted ++ [eofnl_line (mk_ctx clen1 (s :: rest) ln1) v1]).
  rewrite Hls, Hlines, <- !app_assoc, !length_app. cbn [app List.length].
  split; [reflexivity|]. split; [reflexivity|].
  split; [|split; [lia | assumption]].
  apply Forall2_app; [assumption|]. constructor; [|constructor].
  unfold made_from, prefix_of. cbn [eofnl_line origin content line_content_len].
  destruct (eof_for_origin_sides (last_origin v1)) as [-> _].
  unfold line_len, line. cbn [remain hd]. cbv iota. rewrite skip_no_prefix.
  split; [reflexivity | lia].
Qed.

End HunkLinesFollowInput.

Lemma hunk_lines_follow_input_witness :
  exists ctx' v' consumed emitted,
    PatchParse.parse_hunk_body PatchParse.no_content PatchParse.example_hunk
      PatchParse.example_body [] = PatchParse.Ok (ctx', v')
    /\ PatchParse.remain PatchParse.example_body = consumed ++ PatchParse.remain ctx'
    /\ Forall2 HunkInput.made_from consumed emitted
    /\ PatchParse.line_num ctx' = 1 + Z.of_nat (List.length emitted).
Proof.
  destruct (PatchParse.parse_hunk_body PatchParse.no_content
              PatchParse.example_hunk PatchParse.example_body [])
    as [e|[ctx' v']] eqn:E.
  - exfalso. vm_compute in E. discriminate E.
  - destruct (hunk_lines_follow_input PatchParse.no_content PatchParse.example_hunk
                PatchParse.example_body ctx' [] v' E)
      as (consumed & emitted & Hr & _ & Hall & Hn & _).
    exists ctx', v', consumed, emitted. auto.
Defined.
